(** * Page I/O of the segment-v2 storage format (be/src/olap/rowset/segment_v2)

    A shallow embedding of [PageIO] (page_io.cpp): [compress_page_body],
    [write_page], [read_and_decompress_page_] and the corruption-retry wrapper
    [read_and_decompress_page], together with the collaborators these
    functions call (file writer and reader, page cache, block file cache,
    compression codec, footer message, CRC32C), and the properties of the
    on-disk page format proved about them. *)

From Stdlib Require Import ZArith List Lia String QArith Lqa Sorted.
From Stdlib.Strings Require Import Byte Ascii.
From stdpp Require Import gmap strings list.

Local Open Scope Z_scope.

(** ** Bytes and unsigned 32-bit integers *)

Definition byte_to_Z (b : byte) : Z := Z.of_N (Byte.to_N b).

(** The low eight bits of [z], as the C++ conversion to [uint8_t]. *)
Definition byte_of_Z (z : Z) : byte :=
  match Byte.of_N (Z.to_N (z mod 256)) with
  | Some b => b
  | None => x00
  end.

Definition UINT32_MAX : Z := 2 ^ 32 - 1.

(** [static_cast<uint32_t>]: wrap-around modulo 2^32. *)
Definition to_uint32 (z : Z) : Z := z mod 2 ^ 32.

Definition is_uint32 (z : Z) : Prop := 0 <= z < 2 ^ 32.

(** Total number of bytes of a list of slices
    ([Slice::compute_total_size]). *)
Definition Slice := list byte.

Definition slice_size (s : Slice) : Z := Z.of_nat (length s).

Definition compute_total_size (slices : list Slice) : Z :=
  fold_left (fun acc s => acc + slice_size s) slices 0.

(** [util/coding.h]: fixed-width little-endian coding. *)
Definition encode_fixed32_le (v : Z) : list byte :=
  [ byte_of_Z v; byte_of_Z (Z.shiftr v 8);
    byte_of_Z (Z.shiftr v 16); byte_of_Z (Z.shiftr v 24) ].

Definition decode_fixed32_le (bs : list byte) : Z :=
  match bs with
  | [b0; b1; b2; b3] =>
      Z.lor (byte_to_Z b0)
        (Z.lor (Z.shiftl (byte_to_Z b1) 8)
           (Z.lor (Z.shiftl (byte_to_Z b2) 16) (Z.shiftl (byte_to_Z b3) 24)))
  | _ => 0
  end.

(** [put_fixed32_le(&dst, v)] appends the encoding of [v] to [dst]. *)
Definition put_fixed32_le (dst : list byte) (v : Z) : list byte :=
  dst ++ encode_fixed32_le v.

(** The [len] bytes of [buf] that start at [off]; [None] when the range is
    not inside the buffer (in C++ an access outside the allocation). *)
Definition sub_bytes (buf : list byte) (off len : Z) : option (list byte) :=
  if (0 <=? off) && (0 <=? len) && (off + len <=? slice_size buf)
  then Some (firstn (Z.to_nat len) (skipn (Z.to_nat off) buf))
  else None.

(** ** CRC32C (util/crc32c.h) *)
Module crc32c.

(** Modelled from the spec: [crc32c::Value] and [crc32c::Extend] are not
    among the sources; the spec fixes the checksum as CRC32C, the CRC with
    the Castagnoli polynomial, here in reflected form, with initial value and
    final xor 0xFFFFFFFF.  [Extend] continues a checksum over more data, and
    [Value] over a list of slices chains [Extend]. *)
Definition poly : Z := 0x82F63B78.

Definition shift1 (c : Z) : Z :=
  Z.lxor (Z.shiftr c 1) (if Z.odd c then poly else 0).

Definition update_byte (c : Z) (b : byte) : Z :=
  Nat.iter 8 shift1 (Z.lxor c (byte_to_Z b)).

Definition Extend (crc : Z) (data : list byte) : Z :=
  Z.lxor (fold_left update_byte data (Z.lxor crc 0xFFFFFFFF)) 0xFFFFFFFF.

Definition Value (data : list byte) : Z := Extend 0 data.

Definition Value_slices (slices : list Slice) : Z :=
  fold_left Extend slices 0.

End crc32c.


(** ** Status (common/status.h)

    A status is an error code with a message.  The messages of page I/O are
    kept as their format strings. *)
Module ErrorCode.
Inductive t :=
| OK
| CORRUPTION
| IO_ERROR
| INTERNAL_ERROR
| INVALID_ARGUMENT
| NOT_FOUND
| END_OF_FILE
| READER_INITIALIZE_ERROR
| CANCELLED.

#[global] Instance eq_dec : EqDecision t.
Proof. solve_decision. Defined.
End ErrorCode.

Module Status.
Record t := mk { code : ErrorCode.t; msg : string }.
Definition OK : t := mk ErrorCode.OK "".
Definition Corruption (m : string) : t := mk ErrorCode.CORRUPTION m.
Definition IOError (m : string) : t := mk ErrorCode.IO_ERROR m.
Definition InternalError (m : string) : t := mk ErrorCode.INTERNAL_ERROR m.
(** [st.is<c>()] and [st.ok()]. *)
Definition is_code (c : ErrorCode.t) (st : t) : bool :=
  bool_decide (code st = c).
Definition ok (st : t) : bool := is_code ErrorCode.OK st.
End Status.

(** How a call can end other than by returning: a failed [CHECK] terminates
    the process, [cast_set] throws on a value out of the target's range, and
    an access outside a buffer is undefined behaviour. *)
Inductive Failure :=
| CheckFailed (what : string)
| CastOutOfRange
| OutOfBounds
| ShortRead.

(** ** The page footer message (gen_cpp/segment_v2.pb.h)

    The generated protobuf classes are not among the sources.  The fields
    below are the ones page_io.cpp touches; each optional field is an
    [option], so that [has_x()] is [is_Some].  The type-specific sub-messages
    are never inspected by page I/O beyond [nullmap_size]; their remaining
    metadata is kept as a list of field values. *)
Inductive PageTypePB :=
| DATA_PAGE
| INDEX_PAGE
| DICTIONARY_PAGE
| SHORT_KEY_PAGE
| OtherPageType (tag : Z).

Definition page_type_tag (t : PageTypePB) : Z :=
  match t with
  | DATA_PAGE => 1
  | INDEX_PAGE => 2
  | DICTIONARY_PAGE => 3
  | SHORT_KEY_PAGE => 4
  | OtherPageType tag => tag
  end.

Record DataPageFooterPB := mkDataPageFooterPB {
  nullmap_size : Z;
  data_page_meta : list Z
}.

Record IndexPageFooterPB := mkIndexPageFooterPB { index_page_meta : list Z }.
Record DictPageFooterPB := mkDictPageFooterPB { dict_page_meta : list Z }.
Record ShortKeyFooterPB := mkShortKeyFooterPB { short_key_meta : list Z }.

Record PageFooterPB := mkPageFooterPB {
  type : option PageTypePB;
  uncompressed_size : option Z;
  data_page_footer : option DataPageFooterPB;
  index_page_footer : option IndexPageFooterPB;
  dict_page_footer : option DictPageFooterPB;
  short_key_page_footer : option ShortKeyFooterPB
}.

(** Getters return the default value of an unset field. *)
Definition get_uncompressed_size (footer : PageFooterPB) : Z :=
  default 0 (uncompressed_size footer).

Definition get_nullmap_size (footer : PageFooterPB) : Z :=
  match data_page_footer footer with
  | Some d => nullmap_size d
  | None => 0
  end.

(** Serialization of the footer message is protobuf's; page I/O only calls
    it.  It is a parameter of the development. *)
Class Protobuf := {
  SerializeToString : PageFooterPB -> list byte;
  ParseFromString : list byte -> option PageFooterPB
}.

(** ** The file writer (io/fs/file_writer.h)

    [appended] is the content of the file so far; a writer that is [broken]
    fails every append with an I/O error. *)
Record FileWriter := mkFileWriter {
  appended : list byte;
  broken : bool
}.

Definition bytes_appended (writer : FileWriter) : Z :=
  slice_size (appended writer).

Definition appendv (writer : FileWriter) (data : list Slice)
  : Status.t * FileWriter :=
  if broken writer then (Status.IOError "failed to append", writer)
  else (Status.OK, mkFileWriter (appended writer ++ concat data) false).

Record PagePointer := mkPagePointer { offset : Z; size : Z }.

(** ** PageIO::write_page *)

(** The sanity check of the page footer: the message of the first [CHECK]
    that fails, if any. *)
Definition footer_sanity_check (footer : PageFooterPB) : option string :=
  match type footer with
  | None => Some "type must be set"
  | Some t =>
      if negb (bool_decide (is_Some (uncompressed_size footer)))
      then Some "uncompressed_size must be set"
      else
        match t with
        | DATA_PAGE =>
            if bool_decide (is_Some (data_page_footer footer)) then None
            else Some "footer.has_data_page_footer()"
        | INDEX_PAGE =>
            if bool_decide (is_Some (index_page_footer footer)) then None
            else Some "footer.has_index_page_footer()"
        | DICTIONARY_PAGE =>
            if bool_decide (is_Some (dict_page_footer footer)) then None
            else Some "footer.has_dict_page_footer()"
        | SHORT_KEY_PAGE =>
            if bool_decide (is_Some (short_key_page_footer footer)) then None
            else Some "footer.has_short_key_page_footer()"
        | OtherPageType _ => Some "Invalid page footer type"
        end
  end.

Inductive WriteResult :=
| WriteOK (result : PagePointer)
| WriteError (st : Status.t)
| WriteFailure (f : Failure).

(** The bytes of a page as [write_page] lays them out: the body slices, the
    footer buffer (serialized footer and its length), the checksum. *)
Definition page_slices `{Protobuf} (body : list Slice) (footer : PageFooterPB)
  : list Slice :=
  let footer_buf := SerializeToString footer in
  let footer_buf :=
    put_fixed32_le footer_buf (to_uint32 (slice_size footer_buf)) in
  let page := body ++ [footer_buf] in
  let checksum := crc32c.Value_slices page in
  let checksum_buf := encode_fixed32_le checksum in
  page ++ [checksum_buf].

Definition write_page `{Protobuf} (writer : FileWriter) (body : list Slice)
    (footer : PageFooterPB) : WriteResult * FileWriter :=
  match footer_sanity_check footer with
  | Some what => (WriteFailure (CheckFailed what), writer)
  | None =>
      let page := page_slices body footer in
      let offset := bytes_appended writer in
      let '(st, writer') := appendv writer page in
      if negb (Status.ok st) then (WriteError st, writer')
      else
        let written := bytes_appended writer' - offset in
        if written <=? UINT32_MAX
        then (WriteOK (mkPagePointer offset written), writer')
        else (WriteFailure CastOutOfRange, writer')
  end.

(** The bytes of a page: the content in front of the checksum (body,
    footer, footer length), then the checksum of the content. *)
Definition page_content `{Protobuf} (body : list Slice) (footer : PageFooterPB)
  : list byte :=
  concat body ++ SerializeToString footer
  ++ encode_fixed32_le (to_uint32 (slice_size (SerializeToString footer))).

Definition page_bytes `{Protobuf} (body : list Slice) (footer : PageFooterPB)
  : list byte :=
  page_content body footer
  ++ encode_fixed32_le (crc32c.Value (page_content body footer)).

(** The footers [write_page] accepts, spelled out: the type is one of the
    four page types, the uncompressed size is set, and the sub-message of the
    type is set. *)
Definition footer_well_formed (footer : PageFooterPB) : Prop :=
  is_Some (uncompressed_size footer)
  /\ ((type footer = Some DATA_PAGE /\ is_Some (data_page_footer footer))
      \/ (type footer = Some INDEX_PAGE
          /\ is_Some (index_page_footer footer))
      \/ (type footer = Some DICTIONARY_PAGE
          /\ is_Some (dict_page_footer footer))
      \/ (type footer = Some SHORT_KEY_PAGE
          /\ is_Some (short_key_page_footer footer))).

(** ** Double-precision arithmetic

    [compress_page_body] computes the space saving in [double].  A double is
    a rational or one of the special values; every arithmetic result is
    rounded to a representable value by [round], the rounding of the format,
    which is a parameter.  Signed zeros are not distinguished: comparisons
    do not see the sign, and the only division by zero below divides by the
    conversion of an unsigned size. *)
Class Rounding := { round : Q -> Q }.

(** What the development assumes of the rounding: it is monotone and
    leaves 0 and 1, which are representable, as they are. *)
Class RoundingLaws (R : Rounding) : Prop := {
  round_monotone : forall x y : Q, (x <= y)%Q -> (round x <= round y)%Q;
  round_zero : (round 0 == 0)%Q;
  round_one : (round 1 == 1)%Q
}.

Inductive double :=
| Finite (q : Q)
| PosInf
| NegInf
| NaN.

(** [cast_set<double>] of a [size_t]. *)
Definition double_of_size `{Rounding} (n : Z) : double :=
  Finite (round (inject_Z n)).

Definition double_div `{Rounding} (x y : double) : double :=
  match x, y with
  | NaN, _ | _, NaN => NaN
  | Finite a, Finite b =>
      if Qeq_bool b 0
      then (if Qeq_bool a 0 then NaN
            else if Qle_bool 0 a then PosInf else NegInf)
      else Finite (round (a / b))
  | Finite _, PosInf | Finite _, NegInf => Finite 0
  | PosInf, Finite b => if Qle_bool 0 b then PosInf else NegInf
  | NegInf, Finite b => if Qle_bool 0 b then NegInf else PosInf
  | PosInf, PosInf | PosInf, NegInf | NegInf, PosInf | NegInf, NegInf => NaN
  end.

Definition double_sub `{Rounding} (x y : double) : double :=
  match x, y with
  | NaN, _ | _, NaN => NaN
  | Finite a, Finite b => Finite (round (a - b))
  | Finite _, PosInf => NegInf
  | Finite _, NegInf => PosInf
  | PosInf, PosInf | NegInf, NegInf => NaN
  | PosInf, _ => PosInf
  | NegInf, _ => NegInf
  end.

(** [x < y] and [x <= y]; every comparison with NaN is false. *)
Definition double_lt (x y : double) : bool :=
  match x, y with
  | NaN, _ | _, NaN => false
  | Finite a, Finite b => negb (Qle_bool b a)
  | NegInf, Finite _ | NegInf, PosInf | Finite _, PosInf => true
  | _, _ => false
  end.

Definition double_le (x y : double) : bool :=
  match x, y with
  | NaN, _ | _, NaN => false
  | Finite a, Finite b => Qle_bool a b
  | NegInf, _ | _, PosInf => true
  | _, _ => false
  end.

(** ** The block compression codec (util/block_compression.h)

    [compress] returns the status and the output buffer, [decompress] the
    status and the bytes it wrote into an output slice of the given
    capacity.  An exception of [compress] reaches [compress_page_body] as an
    error status ([RETURN_IF_ERROR_OR_CATCH_EXCEPTION]). *)
Record BlockCompressionCodec := mkBlockCompressionCodec {
  exceed_max_compress_len : Z -> bool;
  compress : list Slice -> Z -> Status.t * list byte;
  decompress : list byte -> Z -> Status.t * list byte
}.

(** ** PageIO::compress_page_body

    The result is the status and, when it is OK, the compressed body; the
    empty slice says that the body is to be stored as it is. *)
Inductive CompressResult :=
| CompressOK (compressed_body : list byte)
| CompressError (st : Status.t).

(** The space saving of a compression from [uncompressed_size] to
    [compressed_size] bytes. *)
Definition space_saving `{Rounding} (compressed_size uncompressed_size : Z)
  : double :=
  double_sub (Finite 1)
    (double_div (double_of_size compressed_size)
                (double_of_size uncompressed_size)).

Definition compress_page_body `{Rounding}
    (codec : option BlockCompressionCodec) (min_space_saving : double)
    (body : list Slice) : CompressResult :=
  let uncompressed_size := compute_total_size body in
  match codec with
  | Some c =>
      if negb (exceed_max_compress_len c uncompressed_size) then
        let '(st, buf) := compress c body uncompressed_size in
        if negb (Status.ok st) then CompressError st
        else
          let space_saving := space_saving (slice_size buf) uncompressed_size in
          if double_lt (Finite 0) space_saving
             && double_le min_space_saving space_saving
          then CompressOK buf
          else CompressOK []
      else CompressOK []
  | None => CompressOK []
  end.

(** Modelled from the spec: the page writers that call [compress_page_body]
    are not among the sources.  By the spec a page stores the compressed body
    when compression is accepted and the raw body otherwise, and its footer
    declares the size of the body before compression. *)
Definition stored_body (body : list Slice) (compressed_body : list byte)
  : list Slice :=
  if slice_size compressed_body =? 0 then body else [compressed_body].

Definition is_stored_compressed (compressed_body : list byte) : bool :=
  negb (slice_size compressed_body =? 0).

(** ** File readers and the block file cache (io/fs, io/cache)

    The block file cache is the local tier of a tiered backing: it maps the
    hash of a file to the locally cached bytes of that file.  A reader's
    [read_at] returns the status and the bytes it read, and may fill the
    local tier.  [remote_reader] is set for a [CachedRemoteFileReader], the
    reader of a tiered backing, and is then its remote reader. *)
Definition BlockFileCache : Type := gmap Z (list byte).

#[warnings="-register-all"]
Inductive FileReader := mkFileReader {
  path : string;
  file_size : Z;
  read_at : option BlockFileCache -> Z -> Z
            -> Status.t * list byte * option BlockFileCache;
  remote_reader : option FileReader
}.

(** [io::BlockFileCache::hash], a parameter. *)
Class FileCacheHash := { hash : string -> Z }.

(** [std::string::rfind] of a character and [substr] from a position. *)
Definition npos : Z := 2 ^ 64 - 1.

Fixpoint rfind_from (s : string) (c : ascii) (i : Z) (found : Z) : Z :=
  match s with
  | EmptyString => found
  | String a rest =>
      rfind_from rest c (i + 1) (if Ascii.eqb a c then i else found)
  end.

Definition rfind (s : string) (c : ascii) : Z := rfind_from s c 0 npos.

Fixpoint substr_from (s : string) (pos : nat) : string :=
  match pos, s with
  | O, _ => s
  | S p, String _ rest => substr_from rest p
  | S _, EmptyString => EmptyString
  end.

Definition file_cache_key_from_path `{FileCacheHash} (seg_path : string) : Z :=
  let base :=
    substr_from seg_path (Z.to_nat ((rfind seg_path "/" + 1) mod 2 ^ 64)) in
  hash base.

(** ** The page cache (olap/page_cache.h)

    [StoragePageCache::instance()] may be null.  The cache holds decoded
    pages under the key (file name, file size, page offset), in one cache per
    page type. *)
Definition CacheKey : Type := string * Z * Z.

Definition StoragePageCache : Type := gmap (Z * CacheKey) (list byte).

Definition cache_lookup (cache : StoragePageCache) (key : CacheKey)
    (page_type : PageTypePB) : option (list byte) :=
  cache !! (page_type_tag page_type, key).

Definition cache_insert (cache : StoragePageCache) (key : CacheKey)
    (page : list byte) (page_type : PageTypePB) : StoragePageCache :=
  <[ (page_type_tag page_type, key) := page ]> cache.

(** A page handle owns its page or shares it with the page cache. *)
Inductive PageHandle :=
| OwnedPage (data : list byte)
| CachedPage (key : CacheKey) (data : list byte).

Definition handle_data (handle : PageHandle) : list byte :=
  match handle with
  | OwnedPage data => data
  | CachedPage _ data => data
  end.

(** ** Read options and the state a read acts on *)

(** The pre-decoder of an encoding: [decode] rewrites the page, given the
    size of its tail (null map, footer and footer length). *)
Record DataPagePreDecoder := mkDataPagePreDecoder {
  decode : list byte -> Z -> bool -> PageTypePB -> Status.t * list byte
}.

Record EncodingInfo := mkEncodingInfo {
  get_data_page_pre_decoder : option DataPagePreDecoder
}.

Record PageReadOptions := mkPageReadOptions {
  use_page_cache : bool;
  kept_in_memory : bool;
  pre_decode : bool;
  verify_checksum : bool;
  file_reader : FileReader;
  page_pointer : PagePointer;
  codec : option BlockCompressionCodec;
  encoding_info : option EncodingInfo;
  page_type : PageTypePB
}.

Record OlapReaderStatistics := mkOlapReaderStatistics {
  total_pages_num : Z;
  cached_pages_num : Z;
  compressed_bytes_read : Z;
  uncompressed_bytes_read : Z
}.

(** The process state a read acts on: the page cache, the block file cache
    registered for the file (null when there is none), the configuration
    flag [config::is_cloud_mode()], and the statistics of the reader. *)
Record World := mkWorld {
  page_cache : option StoragePageCache;
  file_cache : option BlockFileCache;
  is_cloud_mode : bool;
  stats : OlapReaderStatistics
}.

Definition set_stats (w : World) (s : OlapReaderStatistics) : World :=
  mkWorld (page_cache w) (file_cache w) (is_cloud_mode w) s.

Definition set_file_cache (w : World) (fc : option BlockFileCache) : World :=
  mkWorld (page_cache w) fc (is_cloud_mode w) (stats w).

Definition set_page_cache (w : World) (c : option StoragePageCache) : World :=
  mkWorld c (file_cache w) (is_cloud_mode w) (stats w).

Definition count_page (s : OlapReaderStatistics) : OlapReaderStatistics :=
  mkOlapReaderStatistics (total_pages_num s + 1) (cached_pages_num s)
    (compressed_bytes_read s) (uncompressed_bytes_read s).

Definition count_cached_page (s : OlapReaderStatistics)
  : OlapReaderStatistics :=
  mkOlapReaderStatistics (total_pages_num s) (cached_pages_num s + 1)
    (compressed_bytes_read s) (uncompressed_bytes_read s).

Definition add_compressed_bytes (s : OlapReaderStatistics) (n : Z)
  : OlapReaderStatistics :=
  mkOlapReaderStatistics (total_pages_num s) (cached_pages_num s)
    (compressed_bytes_read s + n) (uncompressed_bytes_read s).

Definition add_uncompressed_bytes (s : OlapReaderStatistics) (n : Z)
  : OlapReaderStatistics :=
  mkOlapReaderStatistics (total_pages_num s) (cached_pages_num s)
    (compressed_bytes_read s) (uncompressed_bytes_read s + n).

Inductive ReadResult :=
| ReadOK (handle : PageHandle) (body : Slice) (footer : PageFooterPB)
| ReadError (st : Status.t)
| ReadFailure (f : Failure).

(** ** PageIO::read_and_decompress_page_ *)

(** The bytes [off, off+len) of a buffer, for accesses known to be inside. *)
Definition bytes_at (buf : list byte) (off len : Z) : list byte :=
  firstn (Z.to_nat len) (skipn (Z.to_nat off) buf).

Definition cache_key_of (opts : PageReadOptions) : CacheKey :=
  (path (file_reader opts), file_size (file_reader opts),
   offset (page_pointer opts)).

(** The page found in the cache (lines 138-154): the footer is parsed from
    the cached bytes and the body is the part in front of it. *)
Definition page_from_cache `{Protobuf} (opts : PageReadOptions)
    (page_slice : list byte) (w : World) : ReadResult * World :=
  let handle := CachedPage (cache_key_of opts) page_slice in
  let w := set_stats w (count_cached_page (stats w)) in
  match sub_bytes page_slice (slice_size page_slice - 4) 4 with
  | None => (ReadFailure OutOfBounds, w)
  | Some tail =>
      let footer_size := decode_fixed32_le tail in
      match sub_bytes page_slice (slice_size page_slice - 4 - footer_size)
                      footer_size with
      | None => (ReadFailure OutOfBounds, w)
      | Some footer_buf =>
          match ParseFromString footer_buf with
          | None =>
              (ReadError (Status.Corruption
                 "Bad page: invalid footer, footer_size={}, file={}"), w)
          | Some footer =>
              let body :=
                bytes_at page_slice 0
                         (slice_size page_slice - 4 - footer_size) in
              let w :=
                set_stats w
                  (add_uncompressed_bytes (stats w) (slice_size body)) in
              (ReadOK handle body footer, w)
          end
      end
  end.

(** The pre-decoding step (lines 227-234): status and resulting page. *)
Definition pre_decode_page (opts : PageReadOptions) (footer : PageFooterPB)
    (footer_size : Z) (page_slice : list byte) : Status.t * list byte :=
  if pre_decode opts then
    match encoding_info opts with
    | Some info =>
        match get_data_page_pre_decoder info with
        | Some pre_decoder =>
            decode pre_decoder page_slice
              (to_uint32 (get_nullmap_size footer + footer_size + 4))
              (use_page_cache opts) (page_type opts)
        | None => (Status.OK, page_slice)
        end
    | None => (Status.OK, page_slice)
    end
  else (Status.OK, page_slice).

(** The end of a read from the file (lines 227-250): the page is
    pre-decoded, the body is the part in front of the footer, and the page
    goes to the page cache or is owned by the handle. *)
Definition finish_page (opts : PageReadOptions) (footer : PageFooterPB)
    (footer_size : Z) (page_slice : list byte) (w : World)
  : ReadResult * World :=
  let '(st, page_slice) := pre_decode_page opts footer footer_size page_slice in
  if negb (Status.ok st) then (ReadError st, w) else
  match sub_bytes page_slice 0 (slice_size page_slice - 4 - footer_size) with
  | None => (ReadFailure OutOfBounds, w)
  | Some body =>
  let w := set_stats w (add_uncompressed_bytes (stats w) (slice_size body)) in
  match use_page_cache opts, page_cache w with
  | true, Some cache =>
      (* insert this page into cache and return the cache handle *)
      (ReadOK (CachedPage (cache_key_of opts) page_slice) body footer,
       set_page_cache w
         (Some (cache_insert cache (cache_key_of opts) page_slice
                             (page_type opts))))
  | _, _ => (ReadOK (OwnedPage page_slice) body footer, w)
  end
  end.

(** The test of line 199: the body is compressed when its stored size
    differs from the size the footer declares. *)
Definition needs_decompress (body_size : Z) (footer : PageFooterPB) : bool :=
  negb (body_size =? get_uncompressed_size footer).

(** The page read from the file (lines 156-226, then [finish_page]).  The
    test injection point of line 181 is compiled out of production builds
    and is not modelled.  The size of the decompressed page is computed in
    uint32_t (line 207): where it wraps, the codec is called all the same and
    its error or a size mismatch is returned, and a body of the declared
    size does not fit the page together with the footer. *)
Definition page_from_file `{Protobuf} (opts : PageReadOptions) (w : World)
  : ReadResult * World :=
  let page_size := size (page_pointer opts) in
  if page_size <? 8 then
    (ReadError (Status.Corruption "Bad page: too small size ({}), file={}"), w)
  else
  let '(st, data, fc) :=
    read_at (file_reader opts) (file_cache w)
            (offset (page_pointer opts)) page_size in
  let w := set_file_cache w fc in
  if negb (Status.ok st) then (ReadError st, w) else
  if negb (slice_size data =? page_size) then (ReadFailure ShortRead, w) else
  let w := set_stats w (add_compressed_bytes (stats w) page_size) in
  let page_slice := data in
  let expect := decode_fixed32_le (bytes_at page_slice (page_size - 4) 4) in
  let actual := crc32c.Value (bytes_at page_slice 0 (page_size - 4)) in
  if verify_checksum opts && negb (expect =? actual) then
    (ReadError (Status.Corruption
       "Bad page: checksum mismatch (actual={} vs expect={}), file={}"), w)
  else
  (* remove checksum suffix *)
  let page_slice := bytes_at page_slice 0 (page_size - 4) in
  let footer_size :=
    decode_fixed32_le (bytes_at page_slice (slice_size page_slice - 4) 4) in
  match sub_bytes page_slice (slice_size page_slice - 4 - footer_size)
                  footer_size with
  | None => (ReadFailure OutOfBounds, w)
  | Some footer_buf =>
  match ParseFromString footer_buf with
  | None =>
      (ReadError (Status.Corruption
         "Bad page: invalid footer, footer_size={}, file={}"), w)
  | Some footer =>
  let body_size := slice_size page_slice - 4 - footer_size in
  let decompressed : ReadResult + list byte :=
    if needs_decompress body_size footer then
      match codec opts with
      | None =>
          inl (ReadError (Status.Corruption
            "Bad page: page is compressed but codec is NO_COMPRESSION, file={}"))
      | Some c =>
          (* the size of the decompressed page is computed in uint32_t *)
          let page_bytes := get_uncompressed_size footer + footer_size + 4 in
          let allocated := to_uint32 page_bytes in
          (* decompress page body *)
          let compressed_body := bytes_at page_slice 0 body_size in
          let '(st, decompressed_body) :=
            decompress c compressed_body (get_uncompressed_size footer) in
          if negb (Status.ok st) then inl (ReadError st)
          else if negb (slice_size decompressed_body
                        =? get_uncompressed_size footer) then
            inl (ReadError (Status.Corruption
              "Bad page: record uncompressed size={} vs real decompressed size={}, file={}"))
          else if allocated <? page_bytes then
            (* the body and the footer do not fit the decompressed page *)
            inl (ReadFailure OutOfBounds)
          else
            (* append footer and footer size *)
            inr (decompressed_body
                 ++ bytes_at page_slice body_size (footer_size + 4))
      end
    else inr page_slice in
  match decompressed with
  | inl failed => (failed, w)
  | inr page_slice => finish_page opts footer footer_size page_slice w
  end
  end
  end.

(** The cached page a read is served from, if any: the page cache is used,
    exists, and holds the key. *)
Definition lookup_page (opts : PageReadOptions) (w : World)
  : option (list byte) :=
  if use_page_cache opts then
    match page_cache w with
    | Some cache => cache_lookup cache (cache_key_of opts) (page_type opts)
    | None => None
    end
  else None.

Definition read_and_decompress_page_ `{Protobuf} (opts : PageReadOptions)
    (w : World) : ReadResult * World :=
  let w := set_stats w (count_page (stats w)) in
  match lookup_page opts w with
  | Some page_slice => page_from_cache opts page_slice w
  | None => page_from_file opts w
  end.

(** ** The causes of a Corruption status

    The parts of the bytes [data] of a page as a read takes them apart: the
    stored checksum, the page without it, and in that the footer length, the
    footer bytes and the size of the body. *)
Definition stored_checksum (data : list byte) : Z :=
  decode_fixed32_le (bytes_at data (slice_size data - 4) 4).

Definition page_without_checksum (data : list byte) : list byte :=
  bytes_at data 0 (slice_size data - 4).

Definition footer_size_of (page_slice : list byte) : Z :=
  decode_fixed32_le (bytes_at page_slice (slice_size page_slice - 4) 4).

Definition footer_bytes_of (page_slice : list byte) : list byte :=
  bytes_at page_slice (slice_size page_slice - 4 - footer_size_of page_slice)
           (footer_size_of page_slice).

Definition body_size_of (page_slice : list byte) : Z :=
  slice_size page_slice - 4 - footer_size_of page_slice.

(** The four conditions the spec names for a read of the bytes [data] with
    the options [opts]: the page pointer's size is below 8; the footer bytes
    fail to parse; the body size differs from the declared uncompressed size
    and no codec is configured; decompression yields another length than
    the declared one. *)
Inductive ClaimedCorruption `{Protobuf} (opts : PageReadOptions)
    (data : list byte) : Prop :=
| TooSmall :
    size (page_pointer opts) < 8 -> ClaimedCorruption opts data
| InvalidFooter :
    ParseFromString (footer_bytes_of (page_without_checksum data)) = None ->
    ClaimedCorruption opts data
| CodecMissing (footer : PageFooterPB) :
    ParseFromString (footer_bytes_of (page_without_checksum data))
      = Some footer ->
    body_size_of (page_without_checksum data)
      <> get_uncompressed_size footer ->
    codec opts = None ->
    ClaimedCorruption opts data
| DecompressedSizeMismatch (footer : PageFooterPB)
    (c : BlockCompressionCodec) (decompressed_body : list byte)
    (st : Status.t) :
    ParseFromString (footer_bytes_of (page_without_checksum data))
      = Some footer ->
    body_size_of (page_without_checksum data)
      <> get_uncompressed_size footer ->
    codec opts = Some c ->
    decompress c
      (bytes_at (page_without_checksum data) 0
                (body_size_of (page_without_checksum data)))
      (get_uncompressed_size footer) = (st, decompressed_body) ->
    Status.ok st = true ->
    slice_size decompressed_body <> get_uncompressed_size footer ->
    ClaimedCorruption opts data.

(** The condition the four leave out: verification is enabled and the stored
    checksum is not the CRC32C of the bytes in front of it. *)
Definition ChecksumMismatch (opts : PageReadOptions) (data : list byte)
  : Prop :=
  verify_checksum opts = true
  /\ stored_checksum data <> crc32c.Value (page_without_checksum data).

(** ** PageIO::read_and_decompress_page, the corruption-retry wrapper

    [do_read_and_decompress_page] is declared in page_io.h, which is not among
    the sources; the wrapper is a function of it.  The third component of the
    result is not program state: it lists, in order, the read attempts and the
    cache invalidation the wrapper performed. *)
Inductive Event :=
| AttemptRead (reader : FileReader)
| RemoveIfCached (file_key : Z).

Definition is_corruption (r : ReadResult) : bool :=
  match r with
  | ReadError st => Status.is_code ErrorCode.CORRUPTION st
  | _ => false
  end.

Definition is_ok (r : ReadResult) : bool :=
  match r with
  | ReadOK _ _ _ => true
  | _ => false
  end.

Definition with_file_reader (opts : PageReadOptions) (reader : FileReader)
  : PageReadOptions :=
  mkPageReadOptions (use_page_cache opts) (kept_in_memory opts)
    (pre_decode opts) (verify_checksum opts) reader (page_pointer opts)
    (codec opts) (encoding_info opts) (page_type opts).

Definition with_verify_checksum (opts : PageReadOptions) (verify : bool)
  : PageReadOptions :=
  mkPageReadOptions (use_page_cache opts) (kept_in_memory opts)
    (pre_decode opts) verify (file_reader opts) (page_pointer opts)
    (codec opts) (encoding_info opts) (page_type opts).

(** [file_cache->remove_if_cached(file_key)], when a cache is registered. *)
Definition remove_if_cached (w : World) (file_key : Z) : World * list Event :=
  match file_cache w with
  | Some cache =>
      (set_file_cache w (Some (delete file_key cache)),
       [RemoveIfCached file_key])
  | None => (w, [])
  end.

Definition read_and_decompress_page_with `{FileCacheHash}
    (do_read_and_decompress_page :
       PageReadOptions -> World -> ReadResult * World)
    (opts : PageReadOptions) (w : World) : ReadResult * World * list Event :=
  (* First try to read with file cache *)
  let '(st, w) := do_read_and_decompress_page opts w in
  let trace := [AttemptRead (file_reader opts)] in
  if negb (is_corruption st) || negb (is_cloud_mode w) then (st, w, trace)
  else
  match remote_reader (file_reader opts) with
  | None => (st, w, trace)
  | Some remote =>
      (* Remove cache if exists *)
      let file_key := file_cache_key_from_path (path (file_reader opts)) in
      let '(w, removed) := remove_if_cached w file_key in
      let trace := trace ++ removed in
      (* Retry with file cache *)
      let '(st, w) := do_read_and_decompress_page opts w in
      let trace := trace ++ [AttemptRead (file_reader opts)] in
      if negb (is_corruption st) then (st, w, trace)
      else
        let new_opts := with_file_reader opts remote in
        let '(st, w) := do_read_and_decompress_page new_opts w in
        (st, w, trace ++ [AttemptRead remote])
  end.

(** Modelled from the spec: [do_read_and_decompress_page] of page_io.h is
    missing; by the spec each attempt of the wrapper is the same read, so it
    is [read_and_decompress_page_]. *)
Definition do_read_and_decompress_page `{Protobuf} :=
  read_and_decompress_page_.

Definition read_and_decompress_page `{Protobuf} `{FileCacheHash}
    (opts : PageReadOptions) (w : World) : ReadResult * World * list Event :=
  read_and_decompress_page_with do_read_and_decompress_page opts w.

(** The read attempts of a trace. *)
Definition attempts (trace : list Event) : list FileReader :=
  omap (fun e => match e with AttemptRead r => Some r | _ => None end) trace.

(** The basename of a path, in the words of the spec: the part after the
    last '/', and the whole path when it has none. *)
Fixpoint contains_slash (s : string) : bool :=
  match s with
  | EmptyString => false
  | String c rest => Ascii.eqb c "/" || contains_slash rest
  end.

Fixpoint basename (s : string) : string :=
  match s with
  | EmptyString => EmptyString
  | String c rest =>
      if contains_slash rest then basename rest
      else if Ascii.eqb c "/" then rest
      else s
  end.

(** ** TabletReader::next_block_with_aggregation (olap/tablet_reader.h)

    The base class documents the contract of its overriders and itself
    reports that it is not supported. *)
Module TabletReader.
End TabletReader.

(** ** Row-range resolution and batch production (segment_iterator.h)

    segment_iterator.cpp, which defines the members that segment_iterator.h
    declares ([_get_row_ranges_by_keys], [_get_row_ranges_by_column_conditions],
    [_apply_bitmap_index], [_apply_inverted_index], [_downgrade_without_index],
    [next_batch]), is not among the sources.  The definitions of this module
    follow sections 4.2 and 4.3 of the spec.  A segment is the ascending list
    of the keys of its rows. *)
Module SegmentIterator.

Inductive IndexResult :=
| IndexRows (rows : gset nat)
| IndexFailed (st : Status.t).

(** A column predicate: its row-level test on the rows of the segment, and
    what the bitmap and the inverted index of its column answer for it
    ([None]: no such index, or a predicate type the index does not
    support). *)
Record ColumnPredicate := mkColumnPredicate {
  column_id : Z;
  evaluate : nat -> bool;
  bitmap_index : option IndexResult;
  inverted_index : option IndexResult
}.

Record KeyRange := mkKeyRange {
  lower_key : Z;
  include_lower : bool;
  upper_key : Z;
  include_upper : bool
}.

Record StorageReadOptions := mkStorageReadOptions {
  key_range : option KeyRange;
  column_predicates : list ColumnPredicate;
  deleted_rows : gset nat;
  block_row_max : nat
}.

(** Modelled from the spec: [_lookup_ordinal] is missing; the search of a
    bound ends at the exact boundary, the ordinal of the first row whose key
    passes [reached]. *)
Fixpoint lookup_ordinal (keys : list Z) (reached : Z -> bool) : nat :=
  match keys with
  | [] => O
  | k :: rest => if reached k then O else S (lookup_ordinal rest reached)
  end.

Definition lower_reached (range : KeyRange) (k : Z) : bool :=
  if include_lower range then lower_key range <=? k else lower_key range <? k.

Definition upper_passed (range : KeyRange) (k : Z) : bool :=
  if include_upper range then upper_key range <? k else upper_key range <=? k.

Definition row_window (lower upper : nat) : gset nat :=
  list_to_set (seq lower (upper - lower)).

(** Modelled from the spec: [_get_row_ranges_by_keys] is missing; a key
    range resolves to the window of ordinals between the ordinals found for
    its two bounds, and the absence of a key range to all rows. *)
Definition get_row_ranges_by_keys (keys : list Z) (range : option KeyRange)
  : gset nat :=
  match range with
  | None => row_window 0 (length keys)
  | Some r =>
      row_window (lookup_ordinal keys (lower_reached r))
                 (lookup_ordinal keys (upper_passed r))
  end.

(** Modelled from the spec: [_apply_bitmap_index], [_apply_inverted_index]
    and [_downgrade_without_index] are missing; a predicate with a usable
    index is applied by intersecting the index result into the working set
    and is dropped, and one without index or whose index fails is kept in the
    remaining-predicate list.  The result is the narrowed working set and
    the remaining predicates. *)
Fixpoint apply_index (index_of : ColumnPredicate -> option IndexResult)
    (predicates : list ColumnPredicate) (row_bitmap : gset nat)
  : gset nat * list ColumnPredicate :=
  match predicates with
  | [] => (row_bitmap, [])
  | pred :: rest =>
      match index_of pred with
      | Some (IndexRows rows) => apply_index index_of rest (row_bitmap ∩ rows)
      | Some (IndexFailed _) | None =>
          let '(row_bitmap, remaining) :=
            apply_index index_of rest row_bitmap in
          (row_bitmap, pred :: remaining)
      end
  end.

(** Modelled from the spec: [_get_row_ranges_by_column_conditions] is
    missing; the key range, then the bitmap indexes, then the inverted
    indexes narrow the working set, the deleted rows are subtracted, and the
    result is frozen as the row bitmap of the scan. *)
Definition get_row_ranges (keys : list Z) (opts : StorageReadOptions)
  : gset nat * list ColumnPredicate :=
  let row_bitmap := get_row_ranges_by_keys keys (key_range opts) in
  let '(row_bitmap, remaining) :=
    apply_index bitmap_index (column_predicates opts) row_bitmap in
  let '(row_bitmap, remaining) :=
    apply_index inverted_index remaining row_bitmap in
  (row_bitmap ∖ deleted_rows opts, remaining).

(** Direct evaluation at the row level. *)
Definition in_key_range (range : option KeyRange) (k : Z) : bool :=
  match range with
  | None => true
  | Some r => lower_reached r k && negb (upper_passed r k)
  end.

Definition passes (predicates : list ColumnPredicate) (row : nat) : bool :=
  forallb (fun pred => evaluate pred row) predicates.

Definition row_matches (keys : list Z) (opts : StorageReadOptions)
    (row : nat) : bool :=
  match nth_error keys row with
  | Some k =>
      in_key_range (key_range opts) k
      && bool_decide (row ∉ deleted_rows opts)
      && passes (column_predicates opts) row
  | None => false
  end.
















(** What row-range resolution takes for granted of an index: a lookup that
    succeeds answers with exactly the rows of the segment that pass the
    predicate at the row level. *)
Definition index_exact (keys : list Z) (pred : ColumnPredicate)
    (index : option IndexResult) : Prop :=
  forall rows, index = Some (IndexRows rows) ->
  forall row, (row < length keys)%nat ->
              row ∈ rows <-> evaluate pred row = true.

Definition indexes_exact (keys : list Z) (predicates : list ColumnPredicate)
  : Prop :=
  forall pred, In pred predicates ->
    index_exact keys pred (bitmap_index pred)
    /\ index_exact keys pred (inverted_index pred).

(** An index pass applies a predicate when the lookup succeeds. *)
Definition index_applied (index : option IndexResult) : bool :=
  match index with
  | Some (IndexRows _) => true
  | _ => false
  end.

End SegmentIterator.

(** ** compare_row_key (olap/tablet_reader.h, lines 62-72)

    A row cursor has a schema, which gives the number of its columns and
    for each column the comparison of two cells, and the cells of a row.  The
    representation of a cell (olap/row_cursor_cell.h) is a parameter. *)
Module RowKey.
Section RowKey.
Variable Cell : Type.

Record Field := mkField { compare_cell : Cell -> Cell -> Z }.

Record Schema := mkSchema {
  num_column_ids : nat;
  column : nat -> Field
}.

Record RowCursor := mkRowCursor {
  schema : Schema;
  cell : nat -> Cell
}.

(** The loop of [compare_row_key] from column [cid] on, with [count]
    columns left to compare. *)
Fixpoint compare_columns (lhs rhs : RowCursor) (cid count : nat) : Z :=
  match count with
  | O => 0
  | S count =>
      let res :=
        compare_cell (column (schema lhs) cid) (cell lhs cid) (cell rhs cid) in
      if negb (res =? 0) then res
      else compare_columns lhs rhs (S cid) count
  end.

Definition compare_row_key (lhs rhs : RowCursor) : Z :=
  let cmp_cids :=
    Nat.min (num_column_ids (schema lhs)) (num_column_ids (schema rhs)) in
  compare_columns lhs rhs 0 cmp_cids.

End RowKey.
Arguments compare_cell {Cell}.
Arguments num_column_ids {Cell}.
Arguments column {Cell}.
Arguments schema {Cell}.
Arguments cell {Cell}.
Arguments compare_columns {Cell}.
Arguments compare_row_key {Cell}.
End RowKey.

(** ** ColumnPredicateInfo and the short-key comparison
       (olap/rowset/segment_v2/segment_iterator.h) *)
Module ColumnPredicateInfo.

Record t := mk {
  column_name : string;
  query_values : gset string;
  query_op : string;
  column_id : Z
}.

Definition is_empty (self : t) : bool :=
  bool_decide (column_name self = EmptyString)
  && bool_decide (query_values self = ∅)
  && bool_decide (query_op self = EmptyString).

Definition is_equal (self column_pred_info : t) : bool :=
  if negb (bool_decide (column_name column_pred_info = column_name self))
  then false
  else if negb (bool_decide
                  (query_values column_pred_info = query_values self))
  then false
  else if negb (bool_decide (query_op column_pred_info = query_op self))
  then false
  else true.

End ColumnPredicateInfo.

(** [SegmentIterator::_compare_short_key_with_seek_block] (lines 340-349).
    [_short_key] and [_seek_block] are vectors of columns indexed by column
    id; the columns and [IColumn::compare_at] are parameters.  The result is
    [None] when a column id lies outside a vector, where the C++ indexes out
    of bounds. *)
Section ShortKey.
Variable Column : Type.
Variable compare_at : Column -> Z -> Z -> Column -> Z -> Z.

Fixpoint compare_short_key_with_seek_block (short_key seek_block : list Column)
    (col_ids : list nat) : option Z :=
  match col_ids with
  | [] => Some 0
  | cid :: rest =>
      match short_key !! cid, seek_block !! cid with
      | Some key_column, Some seek_column =>
          let res := compare_at key_column 0 0 seek_column (-1) in
          if negb (res =? 0) then Some res
          else compare_short_key_with_seek_block short_key seek_block rest
      | _, _ => None
      end
  end.

End ShortKey.
Arguments compare_short_key_with_seek_block {Column}.

(** ** Reference collaborators

    Concrete collaborators on which the development is run: a
    tag-length-value wire format for the footer message, a polynomial string
    hash, exact rounding, a codec that run-length encodes, readers over an
    in-memory file and over a tiered backing. *)
Module Reference.

Definition put_field (tag : Z) (payload : list byte) : list byte :=
  byte_of_Z tag :: encode_fixed32_le (slice_size payload) ++ payload.

Definition put_words (ws : list Z) : list byte :=
  flat_map encode_fixed32_le ws.

Definition put_optional {A : Type} (tag : Z) (payload : A -> list byte)
    (field : option A) : list byte :=
  match field with
  | Some v => put_field tag (payload v)
  | None => []
  end.

Definition serialize (footer : PageFooterPB) : list byte :=
  put_optional 1 (fun t => put_words [page_type_tag t]) (type footer)
  ++ put_optional 2 (fun n => put_words [n]) (uncompressed_size footer)
  ++ put_optional 7 (fun d => put_words (nullmap_size d :: data_page_meta d))
       (data_page_footer footer)
  ++ put_optional 8 (fun d => put_words (index_page_meta d))
       (index_page_footer footer)
  ++ put_optional 9 (fun d => put_words (dict_page_meta d))
       (dict_page_footer footer)
  ++ put_optional 10 (fun d => put_words (short_key_meta d))
       (short_key_page_footer footer).

Fixpoint get_words (bs : list byte) : option (list Z) :=
  match bs with
  | [] => Some []
  | b0 :: b1 :: b2 :: b3 :: rest =>
      match get_words rest with
      | Some ws => Some (decode_fixed32_le [b0; b1; b2; b3] :: ws)
      | None => None
      end
  | _ => None
  end.

Definition page_type_of_tag (tag : Z) : PageTypePB :=
  if tag =? 1 then DATA_PAGE
  else if tag =? 2 then INDEX_PAGE
  else if tag =? 3 then DICTIONARY_PAGE
  else if tag =? 4 then SHORT_KEY_PAGE
  else OtherPageType tag.

Definition set_field (tag : Z) (ws : list Z) (footer : PageFooterPB)
  : option PageFooterPB :=
  let '(mkPageFooterPB t u d i c s) := footer in
  if tag =? 1 then
    match ws with
    | [w] => Some (mkPageFooterPB (Some (page_type_of_tag w)) u d i c s)
    | _ => None
    end
  else if tag =? 2 then
    match ws with
    | [w] => Some (mkPageFooterPB t (Some w) d i c s)
    | _ => None
    end
  else if tag =? 7 then
    match ws with
    | n :: meta =>
        Some (mkPageFooterPB t u (Some (mkDataPageFooterPB n meta)) i c s)
    | [] => None
    end
  else if tag =? 8 then
    Some (mkPageFooterPB t u d (Some (mkIndexPageFooterPB ws)) c s)
  else if tag =? 9 then
    Some (mkPageFooterPB t u d i (Some (mkDictPageFooterPB ws)) s)
  else if tag =? 10 then
    Some (mkPageFooterPB t u d i c (Some (mkShortKeyFooterPB ws)))
  else None.

Fixpoint parse_fields (fuel : nat) (bs : list byte) (footer : PageFooterPB)
  : option PageFooterPB :=
  match bs with
  | [] => Some footer
  | tag :: rest =>
      match fuel with
      | O => None
      | S fuel =>
          match sub_bytes rest 0 4 with
          | None => None
          | Some len_bytes =>
              let len := decode_fixed32_le len_bytes in
              match sub_bytes rest 4 len with
              | None => None
              | Some payload =>
                  match get_words payload with
                  | None => None
                  | Some ws =>
                      match set_field (byte_to_Z tag) ws footer with
                      | None => None
                      | Some footer =>
                          parse_fields fuel (skipn (Z.to_nat (4 + len)) rest)
                                       footer
                      end
                  end
              end
          end
      end
  end.

Definition parse (bs : list byte) : option PageFooterPB :=
  parse_fields (length bs) bs (mkPageFooterPB None None None None None None).

#[global] Instance protobuf : Protobuf :=
  {| SerializeToString := serialize; ParseFromString := parse |}.

Definition string_hash (s : string) : Z :=
  fold_left (fun h c => (h * 31 + Z.of_N (N_of_ascii c)) mod 2 ^ 128)
            (list_ascii_of_string s) 7.

#[global] Instance file_cache_hash : FileCacheHash := {| hash := string_hash |}.

#[global] Instance exact_rounding : Rounding := {| round := fun q => q |}.

(** Run-length encoding: pairs of a repeat count (at most 255) and a byte. *)
Fixpoint rle_encode (data : list byte) : list byte :=
  match data with
  | [] => []
  | b :: rest =>
      match rle_encode rest with
      | n :: b' :: tail =>
          if Byte.eqb b b' && (byte_to_Z n <? 255)
          then byte_of_Z (byte_to_Z n + 1) :: b' :: tail
          else x01 :: b :: n :: b' :: tail
      | tail => x01 :: b :: tail
      end
  end.

Fixpoint rle_decode (data : list byte) : list byte :=
  match data with
  | n :: b :: rest => repeat b (Z.to_nat (byte_to_Z n)) ++ rle_decode rest
  | _ => []
  end.

Definition rle_codec : BlockCompressionCodec :=
  {| exceed_max_compress_len := fun n => 2 ^ 31 <? n;
     compress := fun body _ => (Status.OK, rle_encode (concat body));
     decompress := fun input capacity =>
       let output := rle_decode input in
       if slice_size output <=? capacity then (Status.OK, output)
       else (Status.InternalError "decompress failed", []) |}.

(** A reader over the bytes of a file that is not tiered. *)
Definition local_file_reader (name : string) (contents : list byte)
  : FileReader :=
  {| path := name;
     file_size := slice_size contents;
     read_at := fun cache off len => (Status.OK, bytes_at contents off len, cache);
     remote_reader := None |}.

(** The reader of a tiered backing: it serves the locally cached copy of the
    file when the block file cache holds one, and otherwise reads the remote
    file and caches it. *)
Definition cached_remote_file_reader (name : string) (contents : list byte)
  : FileReader :=
  {| path := name;
     file_size := slice_size contents;
     read_at := fun cache off len =>
       match cache with
       | Some local =>
           match local !! file_cache_key_from_path name with
           | Some copy => (Status.OK, bytes_at copy off len, cache)
           | None =>
               (Status.OK, bytes_at contents off len,
                Some (<[ file_cache_key_from_path name := contents ]> local))
           end
       | None => (Status.OK, bytes_at contents off len, cache)
       end;
     remote_reader := Some (local_file_reader name contents) |}.

Definition bytes_of_string (s : string) : list byte :=
  List.map byte_of_ascii (list_ascii_of_string s).

Definition data_footer (uncompressed : Z) : PageFooterPB :=
  mkPageFooterPB (Some DATA_PAGE) (Some uncompressed)
    (Some (mkDataPageFooterPB 0 [0; 3])) None None None.

Definition empty_writer : FileWriter := mkFileWriter [] false.

Definition fresh_stats : OlapReaderStatistics :=
  mkOlapReaderStatistics 0 0 0 0.

(** A process without page cache and without block file cache. *)
Definition plain_world : World := mkWorld None None false fresh_stats.

Definition read_options (reader : FileReader) (pointer : PagePointer)
    (verify : bool) : PageReadOptions :=
  mkPageReadOptions false false false verify reader pointer None None
    DATA_PAGE.

(** A segment of ten rows with the keys 10, 20, ..., 100, and a scan of the
    key range [25, 55) with two predicates and batches of one row: "the
    ordinal is even", answered by a bitmap index, and "the ordinal is below
    4", whose bitmap index fails. *)
Definition sample_keys : list Z := [10; 20; 30; 40; 50; 60; 70; 80; 90; 100].

Definition even_rows : SegmentIterator.ColumnPredicate :=
  SegmentIterator.mkColumnPredicate 0 Nat.even
    (Some (SegmentIterator.IndexRows (list_to_set [0; 2; 4; 6; 8]%nat)))
    None.

Definition low_rows : SegmentIterator.ColumnPredicate :=
  SegmentIterator.mkColumnPredicate 1 (fun row => (row <? 4)%nat)
    (Some (SegmentIterator.IndexFailed
             (Status.IOError "bitmap index is corrupted")))
    None.

Definition sample_scan : SegmentIterator.StorageReadOptions :=
  SegmentIterator.mkStorageReadOptions
    (Some (SegmentIterator.mkKeyRange 25 true 55 false))
    [even_rows; low_rows] ∅ 1.





End Reference.

(** * Properties *)

(** ** Lemmas on bytes and fixed-width coding *)

Lemma byte_to_Z_range (b : byte) : 0 <= byte_to_Z b < 256.
Proof.
  unfold byte_to_Z. pose proof (Byte.to_N_bounded b). lia.
Qed.

Lemma byte_to_Z_inj (b b' : byte) : byte_to_Z b = byte_to_Z b' -> b = b'.
Proof.
  unfold byte_to_Z. intros H. apply N2Z.inj in H.
  pose proof (Byte.of_to_N b) as Hb. rewrite H, Byte.of_to_N in Hb.
  congruence.
Qed.

Lemma byte_to_of_Z (z : Z) : byte_to_Z (byte_of_Z z) = z mod 256.
Proof.
  unfold byte_of_Z, byte_to_Z.
  assert (Hr : 0 <= z mod 256 < 256) by (apply Z.mod_pos_bound; lia).
  destruct (Byte.of_N (Z.to_N (z mod 256))) as [b|] eqn:E.
  - apply Byte.to_of_N in E. rewrite E. lia.
  - apply Byte.of_N_None_iff in E. lia.
Qed.

Lemma byte_of_to_Z (b : byte) : byte_of_Z (byte_to_Z b) = b.
Proof.
  apply byte_to_Z_inj. rewrite byte_to_of_Z.
  apply Z.mod_small, byte_to_Z_range.
Qed.

Lemma compute_total_size_acc (slices : list Slice) (a : Z) :
  fold_left (fun acc s => acc + slice_size s) slices a
  = a + slice_size (concat slices).
Proof.
  revert a. induction slices as [|s rest IH]; intros a; simpl.
  - unfold slice_size. simpl. lia.
  - rewrite IH. unfold slice_size. rewrite !length_app. lia.
Qed.

Lemma compute_total_size_concat (slices : list Slice) :
  compute_total_size slices = slice_size (concat slices).
Proof. unfold compute_total_size. rewrite compute_total_size_acc. lia. Qed.

Lemma slice_size_app (a b : list byte) :
  slice_size (a ++ b) = slice_size a + slice_size b.
Proof. unfold slice_size. rewrite length_app. lia. Qed.

Lemma slice_size_nonneg (a : list byte) : 0 <= slice_size a.
Proof. unfold slice_size. lia. Qed.

Lemma encode_fixed32_le_size (v : Z) : slice_size (encode_fixed32_le v) = 4.
Proof. reflexivity. Qed.

Lemma decode_encode_fixed32_le (v : Z) :
  is_uint32 v -> decode_fixed32_le (encode_fixed32_le v) = v.
Proof.
  intros [Hlo Hhi]. unfold encode_fixed32_le, decode_fixed32_le.
  rewrite !byte_to_of_Z.
  change 256 with (2 ^ 8).
  apply Z.bits_inj'. intros n Hn.
  rewrite !Z.lor_spec.
  destruct (Z.ltb_spec n 8); [|destruct (Z.ltb_spec n 16);
    [|destruct (Z.ltb_spec n 24); [|destruct (Z.ltb_spec n 32)]]].
  - rewrite Z.mod_pow2_bits_low by lia.
    rewrite !Z.shiftl_spec_low by lia. now rewrite !orb_false_r.
  - rewrite Z.mod_pow2_bits_high by lia.
    rewrite (Z.shiftl_spec_low _ 16), (Z.shiftl_spec_low _ 24) by lia.
    rewrite Z.shiftl_spec by lia.
    rewrite Z.mod_pow2_bits_low by lia. rewrite Z.shiftr_spec by lia.
    simpl. rewrite !orb_false_r. f_equal. lia.
  - rewrite Z.mod_pow2_bits_high by lia.
    rewrite (Z.shiftl_spec_low _ 24) by lia.
    rewrite !Z.shiftl_spec by lia.
    rewrite (Z.mod_pow2_bits_high _ 8 (n - 8)) by lia.
    rewrite Z.mod_pow2_bits_low by lia. rewrite Z.shiftr_spec by lia.
    simpl. rewrite !orb_false_r. f_equal. lia.
  - rewrite Z.mod_pow2_bits_high by lia.
    rewrite !Z.shiftl_spec by lia.
    rewrite (Z.mod_pow2_bits_high _ 8 (n - 8)) by lia.
    rewrite (Z.mod_pow2_bits_high _ 8 (n - 16)) by lia.
    rewrite Z.mod_pow2_bits_low by lia. rewrite Z.shiftr_spec by lia.
    simpl. f_equal. lia.
  - rewrite Z.mod_pow2_bits_high by lia.
    rewrite !Z.shiftl_spec by lia.
    rewrite !Z.mod_pow2_bits_high by lia. simpl.
    symmetry. apply Z.bits_above_log2; [lia|].
    destruct (Z.eq_dec v 0) as [->|Hv]; [simpl; lia|].
    assert (Z.log2 v < 32) by (apply Z.log2_lt_pow2; lia). lia.
Qed.

Lemma sub_bytes_Some (buf : list byte) (off len : Z) :
  0 <= off -> 0 <= len -> off + len <= slice_size buf ->
  sub_bytes buf off len = Some (bytes_at buf off len).
Proof.
  intros H1 H2 H3. unfold sub_bytes, bytes_at.
  destruct (Z.leb_spec 0 off); [|lia].
  destruct (Z.leb_spec 0 len); [|lia].
  destruct (Z.leb_spec (off + len) (slice_size buf)); [|lia].
  reflexivity.
Qed.

Lemma bytes_at_prefix (a b : list byte) :
  bytes_at (a ++ b) 0 (slice_size a) = a.
Proof.
  unfold bytes_at, slice_size. rewrite Nat2Z.id. change (Z.to_nat 0) with O.
  rewrite drop_0. apply take_app_length.
Qed.

Lemma bytes_at_suffix (a b : list byte) :
  bytes_at (a ++ b) (slice_size a) (slice_size b) = b.
Proof.
  unfold bytes_at, slice_size. rewrite !Nat2Z.id.
  rewrite drop_app_length. apply firstn_all.
Qed.

(** ** CRC32C detects the corruption of a single byte *)

Lemma is_uint32_bits (x : Z) :
  is_uint32 x <-> 0 <= x /\ forall n, 32 <= n -> Z.testbit x n = false.
Proof.
  unfold is_uint32. split.
  - intros [Hlo Hhi]. split; [exact Hlo|]. intros n Hn.
    destruct (Z.eq_dec x 0) as [->|Hx]; [apply Z.testbit_0_l|].
    apply Z.bits_above_log2; [lia|].
    assert (Z.log2 x < 32) by (apply Z.log2_lt_pow2; lia). lia.
  - intros [Hlo Hbits]. split; [exact Hlo|].
    assert (E : x = x mod 2 ^ 32).
    { apply Z.bits_inj'. intros n Hn.
      destruct (Z.ltb_spec n 32).
      - now rewrite Z.mod_pow2_bits_low by lia.
      - rewrite Z.mod_pow2_bits_high by lia. now apply Hbits. }
    rewrite E. apply Z.mod_pos_bound. lia.
Qed.

Lemma lxor_is_uint32 (a b : Z) :
  is_uint32 a -> is_uint32 b -> is_uint32 (Z.lxor a b).
Proof.
  rewrite !is_uint32_bits. intros [Ha Hab] [Hb Hbb]. split.
  - apply Z.lxor_nonneg. tauto.
  - intros n Hn. rewrite Z.lxor_spec, Hab, Hbb by lia. reflexivity.
Qed.

Lemma lxor_cancel_r (a b k : Z) : Z.lxor a k = Z.lxor b k -> a = b.
Proof.
  intros H. apply (f_equal (fun x => Z.lxor x k)) in H.
  now rewrite !Z.lxor_assoc, Z.lxor_nilpotent, !Z.lxor_0_r in H.
Qed.

Lemma lxor_cancel_l (a b k : Z) : Z.lxor k a = Z.lxor k b -> a = b.
Proof. rewrite !(Z.lxor_comm k). apply lxor_cancel_r. Qed.

Lemma byte_is_uint32 (b : byte) : is_uint32 (byte_to_Z b).
Proof. pose proof (byte_to_Z_range b). unfold is_uint32. lia. Qed.

Lemma shift1_is_uint32 (c : Z) : is_uint32 c -> is_uint32 (crc32c.shift1 c).
Proof.
  intros Hc. unfold crc32c.shift1. apply lxor_is_uint32.
  - unfold is_uint32 in *. rewrite Z.shiftr_div_pow2 by lia.
    change (2 ^ 1) with 2. split; [apply Z.div_pos; lia|].
    apply Z.div_lt_upper_bound; lia.
  - destruct (Z.odd c); unfold is_uint32, crc32c.poly; lia.
Qed.

Lemma shift1_top_bit (c : Z) :
  is_uint32 c -> Z.testbit (crc32c.shift1 c) 31 = Z.odd c.
Proof.
  intros Hc. unfold crc32c.shift1.
  rewrite Z.lxor_spec, Z.shiftr_spec by lia.
  apply is_uint32_bits in Hc as [_ Hc]. rewrite Hc by lia.
  destruct (Z.odd c); reflexivity.
Qed.

Lemma shift1_inj (c c' : Z) :
  is_uint32 c -> is_uint32 c' ->
  crc32c.shift1 c = crc32c.shift1 c' -> c = c'.
Proof.
  intros Hc Hc' E.
  assert (Ho : Z.odd c = Z.odd c').
  { rewrite <- (shift1_top_bit c), <- (shift1_top_bit c') by assumption.
    now rewrite E. }
  unfold crc32c.shift1 in E. rewrite Ho in E. apply lxor_cancel_r in E.
  rewrite !Z.shiftr_div_pow2 in E by lia. change (2 ^ 1) with 2 in E.
  rewrite (Z.div_mod c 2), (Z.div_mod c' 2) by lia.
  rewrite E. f_equal.
  rewrite !Zmod_odd, Ho. reflexivity.
Qed.

Lemma iter_shift1_is_uint32 (n : nat) (c : Z) :
  is_uint32 c -> is_uint32 (Nat.iter n crc32c.shift1 c).
Proof.
  induction n as [|n IH]; simpl; intros Hc; [exact Hc|].
  apply shift1_is_uint32, IH, Hc.
Qed.

Lemma iter_shift1_inj (n : nat) (c c' : Z) :
  is_uint32 c -> is_uint32 c' ->
  Nat.iter n crc32c.shift1 c = Nat.iter n crc32c.shift1 c' -> c = c'.
Proof.
  induction n as [|n IH]; simpl; intros Hc Hc' E; [exact E|].
  apply IH; try assumption.
  apply shift1_inj; [now apply iter_shift1_is_uint32..|exact E].
Qed.

Lemma update_byte_eq (c : Z) (b : byte) :
  crc32c.update_byte c b
  = Nat.iter 8 crc32c.shift1 (Z.lxor c (byte_to_Z b)).
Proof. reflexivity. Qed.

Lemma update_byte_is_uint32 (c : Z) (b : byte) :
  is_uint32 c -> is_uint32 (crc32c.update_byte c b).
Proof.
  intros Hc. rewrite update_byte_eq.
  apply iter_shift1_is_uint32, lxor_is_uint32;
    [exact Hc | apply byte_is_uint32].
Qed.

Lemma update_byte_inj_crc (c c' : Z) (b : byte) :
  is_uint32 c -> is_uint32 c' ->
  crc32c.update_byte c b = crc32c.update_byte c' b -> c = c'.
Proof.
  intros Hc Hc' E. rewrite !update_byte_eq in E.
  apply (lxor_cancel_r c c' (byte_to_Z b)).
  apply (iter_shift1_inj 8); [| | exact E];
    (apply lxor_is_uint32; [assumption | apply byte_is_uint32]).
Qed.

Lemma update_byte_inj_byte (c : Z) (b b' : byte) :
  is_uint32 c ->
  crc32c.update_byte c b = crc32c.update_byte c b' -> b = b'.
Proof.
  intros Hc E. rewrite !update_byte_eq in E.
  apply byte_to_Z_inj, (lxor_cancel_l _ _ c).
  apply (iter_shift1_inj 8); [| | exact E];
    (apply lxor_is_uint32; [assumption | apply byte_is_uint32]).
Qed.

(** A fold of a step that keeps its state in range and is injective in the
    state is injective in its initial state. *)
Section FoldInjective.
Variable step : Z -> byte -> Z.
Hypothesis step_range : forall c b, is_uint32 c -> is_uint32 (step c b).
Hypothesis step_inj :
  forall c c' b, is_uint32 c -> is_uint32 c' -> step c b = step c' b -> c = c'.

Lemma fold_step_is_uint32 (data : list byte) (c : Z) :
  is_uint32 c -> is_uint32 (fold_left step data c).
Proof.
  revert c. induction data as [|b data IH]; cbn [fold_left]; intros c Hc;
    [exact Hc|].
  apply IH, step_range, Hc.
Qed.

Lemma fold_step_inj (data : list byte) (c c' : Z) :
  is_uint32 c -> is_uint32 c' ->
  fold_left step data c = fold_left step data c' -> c = c'.
Proof.
  revert c c'.
  induction data as [|b data IH]; cbn [fold_left]; intros c c' Hc Hc' E;
    [exact E|].
  apply (step_inj c c' b Hc Hc').
  apply IH; [apply step_range, Hc | apply step_range, Hc' | exact E].
Qed.

Lemma fold_step_app_cons (pre post : list byte) (b : byte) (c : Z) :
  fold_left step (pre ++ b :: post) c
  = fold_left step post (step (fold_left step pre c) b).
Proof. rewrite fold_left_app. reflexivity. Qed.
End FoldInjective.

Lemma fold_update_is_uint32 (data : list byte) (c : Z) :
  is_uint32 c -> is_uint32 (fold_left crc32c.update_byte data c).
Proof. apply fold_step_is_uint32, update_byte_is_uint32. Qed.

Lemma fold_update_inj (data : list byte) (c c' : Z) :
  is_uint32 c -> is_uint32 c' ->
  fold_left crc32c.update_byte data c = fold_left crc32c.update_byte data c' ->
  c = c'.
Proof.
  apply fold_step_inj; [apply update_byte_is_uint32 | apply update_byte_inj_crc].
Qed.

Lemma crc_init_is_uint32 : is_uint32 (Z.lxor 0 0xFFFFFFFF).
Proof. rewrite Z.lxor_0_l. unfold is_uint32. lia. Qed.

Lemma crc_value_is_uint32 (data : list byte) : is_uint32 (crc32c.Value data).
Proof.
  unfold crc32c.Value, crc32c.Extend.
  apply lxor_is_uint32; [|unfold is_uint32; lia].
  apply fold_update_is_uint32, crc_init_is_uint32.
Qed.

Lemma crc_extend_app (crc : Z) (a b : list byte) :
  crc32c.Extend (crc32c.Extend crc a) b = crc32c.Extend crc (a ++ b).
Proof.
  unfold crc32c.Extend. rewrite fold_left_app. f_equal. f_equal.
  now rewrite Z.lxor_assoc, Z.lxor_nilpotent, Z.lxor_0_r.
Qed.

Lemma crc_value_slices_acc (slices : list Slice) (crc : Z) :
  fold_left crc32c.Extend slices crc = crc32c.Extend crc (concat slices).
Proof.
  revert crc. induction slices as [|s rest IH]; intros crc; simpl.
  - unfold crc32c.Extend. simpl.
    now rewrite Z.lxor_assoc, Z.lxor_nilpotent, Z.lxor_0_r.
  - rewrite IH. apply crc_extend_app.
Qed.

Lemma crc_value_slices (slices : list Slice) :
  crc32c.Value_slices slices = crc32c.Value (concat slices).
Proof. apply crc_value_slices_acc. Qed.

(** Two byte strings that differ in exactly one byte have different
    checksums. *)
Lemma crc_detects_single_byte (pre post : list byte) (b b' : byte) :
  b <> b' ->
  crc32c.Value (pre ++ b :: post) <> crc32c.Value (pre ++ b' :: post).
Proof.
  intros Hne E. unfold crc32c.Value, crc32c.Extend in E.
  apply lxor_cancel_r in E. rewrite !fold_step_app_cons in E.
  assert (Hs : is_uint32
                 (fold_left crc32c.update_byte pre (Z.lxor 0 0xFFFFFFFF)))
    by apply fold_update_is_uint32, crc_init_is_uint32.
  apply Hne.
  apply (update_byte_inj_byte _ b b' Hs).
  apply (fold_update_inj post);
    [apply update_byte_is_uint32, Hs | apply update_byte_is_uint32, Hs
    | exact E].
Qed.

(** ** The layout of a written page *)

Lemma to_uint32_small (x : Z) : is_uint32 x -> to_uint32 x = x.
Proof. intros Hx. apply Z.mod_small, Hx. Qed.

Lemma concat_page_slices `{Protobuf} (body : list Slice)
    (footer : PageFooterPB) :
  concat (page_slices body footer) = page_bytes body footer.
Proof.
  unfold page_slices, page_bytes, page_content, put_fixed32_le.
  rewrite crc_value_slices, !concat_app. simpl. rewrite !app_nil_r.
  now rewrite <- !app_assoc.
Qed.

Lemma page_content_size `{Protobuf} (body : list Slice)
    (footer : PageFooterPB) :
  slice_size (page_content body footer)
  = compute_total_size body + slice_size (SerializeToString footer) + 4.
Proof.
  unfold page_content.
  rewrite !slice_size_app, encode_fixed32_le_size, compute_total_size_concat.
  lia.
Qed.

Lemma page_bytes_size `{Protobuf} (body : list Slice) (footer : PageFooterPB) :
  slice_size (page_bytes body footer)
  = compute_total_size body + slice_size (SerializeToString footer) + 4 + 4.
Proof.
  unfold page_bytes.
  rewrite slice_size_app, encode_fixed32_le_size, page_content_size. lia.
Qed.

(** What [write_page] has done when it returns OK. *)
Lemma write_page_ok `{Protobuf} (writer : FileWriter) (body : list Slice)
    (footer : PageFooterPB) (result : PagePointer) (writer' : FileWriter) :
  write_page writer body footer = (WriteOK result, writer') ->
  result = mkPagePointer (bytes_appended writer)
                         (slice_size (page_bytes body footer))
  /\ writer' = mkFileWriter (appended writer ++ page_bytes body footer) false
  /\ slice_size (page_bytes body footer) <= UINT32_MAX.
Proof.
  unfold write_page, appendv.
  destruct (footer_sanity_check footer); [discriminate|].
  destruct (broken writer); [discriminate|]. cbn [negb Status.ok].
  rewrite concat_page_slices.
  replace (bytes_appended _ - bytes_appended writer)
    with (slice_size (page_bytes body footer))
    by (unfold bytes_appended; cbn [appended]; rewrite slice_size_app; lia).
  change (Status.ok Status.OK) with true. cbn [negb].
  destruct (Z.leb_spec (slice_size (page_bytes body footer)) UINT32_MAX);
    [|discriminate].
  intros [= <- <-]. auto.
Qed.

(** C3: when the footer passes the sanity check, the writer accepts the
    append and the page fits the 32-bit size of a page pointer, [write_page]
    returns OK; it has appended, in order, the body bytes, the serialized
    footer, the length of the footer in 4 bytes little-endian and the CRC32C
    of body, footer and footer length in 4 bytes little-endian; the pointer
    it returns has the writer's position before the write as offset and the
    number of bytes written, body size + footer size + 4 + 4, as size. *)
Theorem write_page_layout `{Protobuf} (writer : FileWriter)
    (body : list Slice) (footer : PageFooterPB) :
  footer_sanity_check footer = None ->
  broken writer = false ->
  compute_total_size body + slice_size (SerializeToString footer) + 4 + 4
    <= UINT32_MAX ->
  let footer_bytes := SerializeToString footer in
  let footer_length := encode_fixed32_le (slice_size footer_bytes) in
  let checksum :=
    encode_fixed32_le
      (crc32c.Value (concat body ++ footer_bytes ++ footer_length)) in
  exists result writer',
    write_page writer body footer = (WriteOK result, writer')
    /\ appended writer'
       = appended writer ++ concat body ++ footer_bytes ++ footer_length
         ++ checksum
    /\ offset result = bytes_appended writer
    /\ size result = bytes_appended writer' - bytes_appended writer
    /\ size result
       = compute_total_size body + slice_size footer_bytes + 4 + 4.
Proof.
  intros Hcheck Hw Hfit footer_bytes footer_length checksum.
  assert (Hlen : to_uint32 (slice_size footer_bytes) = slice_size footer_bytes).
  { apply to_uint32_small. unfold is_uint32, UINT32_MAX in *.
    pose proof (slice_size_nonneg footer_bytes).
    pose proof (slice_size_nonneg (concat body)).
    rewrite compute_total_size_concat in Hfit. fold footer_bytes in Hfit. lia. }
  eexists _, _. split.
  - unfold write_page, appendv. rewrite Hcheck, Hw.
    change (Status.ok Status.OK) with true. cbn [negb].
    rewrite concat_page_slices.
    replace (bytes_appended _ - bytes_appended writer)
      with (slice_size (page_bytes body footer))
      by (unfold bytes_appended; cbn [appended]; rewrite slice_size_app; lia).
    rewrite page_bytes_size.
    destruct (Z.leb_spec (compute_total_size body
                + slice_size (SerializeToString footer) + 4 + 4) UINT32_MAX);
      [reflexivity | lia].
  - cbn [appended offset size]. unfold bytes_appended. cbn [appended].
    repeat split.
    + unfold page_bytes, page_content. fold footer_bytes. rewrite Hlen.
      now rewrite <- !app_assoc.
    + rewrite slice_size_app, page_bytes_size. fold footer_bytes. lia.
Qed.

(** C3, on a page with a five-byte body in an empty file. *)
Lemma write_page_layout_witness :
  let body := [Reference.bytes_of_string "hello"] in
  let footer := Reference.data_footer 5 in
  exists result writer',
    write_page Reference.empty_writer body footer = (WriteOK result, writer')
    /\ appended writer'
       = appended Reference.empty_writer ++ concat body
         ++ SerializeToString footer
         ++ encode_fixed32_le (slice_size (SerializeToString footer))
         ++ encode_fixed32_le
              (crc32c.Value
                 (concat body ++ SerializeToString footer
                  ++ encode_fixed32_le
                       (slice_size (SerializeToString footer))))
    /\ offset result = bytes_appended Reference.empty_writer
    /\ size result
       = bytes_appended writer' - bytes_appended Reference.empty_writer
    /\ size result
       = compute_total_size body + slice_size (SerializeToString footer)
         + 4 + 4.
Proof.
  apply (write_page_layout Reference.empty_writer
           [Reference.bytes_of_string "hello"] (Reference.data_footer 5)).
  - reflexivity.
  - reflexivity.
  - vm_compute. discriminate.
Defined.

(** ** Reading a stored page *)

Lemma bytes_at_middle (a b c : list byte) :
  bytes_at (a ++ b ++ c) (slice_size a) (slice_size b) = b.
Proof.
  unfold bytes_at, slice_size. rewrite !Nat2Z.id.
  rewrite drop_app_length. apply take_app_length.
Qed.

Lemma bytes_at_suffix4 (a : list byte) (v : Z) :
  bytes_at (a ++ encode_fixed32_le v) (slice_size a) 4 = encode_fixed32_le v.
Proof. apply (bytes_at_suffix a (encode_fixed32_le v)). Qed.

Lemma bytes_at_all (a : list byte) : bytes_at a 0 (slice_size a) = a.
Proof.
  unfold bytes_at, slice_size. rewrite Nat2Z.id. change (Z.to_nat 0) with O.
  rewrite drop_0. apply firstn_all.
Qed.

Lemma status_ok_OK : Status.ok Status.OK = true.
Proof. reflexivity. Qed.

(** The read of a page whose bytes are a body stored as it is, the
    serialized footer, the footer length and four checksum bytes, which
    verification, when enabled, accepts. *)
Lemma page_from_file_stored `{Protobuf} (opts : PageReadOptions) (w : World)
    (body : list byte) (footer : PageFooterPB) (checksum : list byte)
    (st : Status.t) (fc : option BlockFileCache) :
  let footer_bytes := SerializeToString footer in
  let content :=
    body ++ footer_bytes ++ encode_fixed32_le (slice_size footer_bytes) in
  read_at (file_reader opts) (file_cache w) (offset (page_pointer opts))
          (size (page_pointer opts))
    = (st, content ++ checksum, fc) ->
  Status.ok st = true ->
  size (page_pointer opts) = slice_size content + 4 ->
  slice_size checksum = 4 ->
  is_uint32 (slice_size footer_bytes) ->
  ParseFromString footer_bytes = Some footer ->
  get_uncompressed_size footer = slice_size body ->
  (verify_checksum opts = true ->
   decode_fixed32_le checksum = crc32c.Value content) ->
  pre_decode opts = false ->
  exists handle w',
    page_from_file opts w = (ReadOK handle body footer, w')
    /\ handle_data handle = content.
Proof.
  intros footer_bytes content Hread Hst Hsize Hck Hfs Hparse Husize Hcrc Hpre.
  assert (Hcontent : slice_size content
                     = slice_size body + slice_size footer_bytes + 4).
  { unfold content. rewrite !slice_size_app, encode_fixed32_le_size. lia. }
  pose proof (slice_size_nonneg body) as Hb.
  pose proof (slice_size_nonneg footer_bytes) as Hf.
  unfold page_from_file. rewrite Hsize.
  destruct (Z.ltb_spec (slice_size content + 4) 8) as [Hlt|_]; [lia|].
  rewrite <- Hsize, Hread, Hst. cbn [negb].
  rewrite Hsize.
  replace (slice_size (content ++ checksum) =? slice_size content + 4)
    with true
    by (symmetry; apply Z.eqb_eq; rewrite slice_size_app; lia).
  cbn [negb].
  replace (slice_size content + 4 - 4) with (slice_size content) by lia.
  assert (Htail : bytes_at (content ++ checksum) (slice_size content) 4
                  = checksum)
    by (rewrite <- Hck; apply bytes_at_suffix).
  rewrite Htail, bytes_at_prefix.
  assert (Hverify : verify_checksum opts
                    && negb (decode_fixed32_le checksum
                             =? crc32c.Value content) = false).
  { destruct (verify_checksum opts); [|reflexivity].
    rewrite Hcrc by reflexivity. now rewrite Z.eqb_refl. }
  rewrite Hverify.
  assert (Hlen : decode_fixed32_le
                   (bytes_at content (slice_size content - 4) 4)
                 = slice_size footer_bytes).
  { replace (slice_size content - 4) with (slice_size (body ++ footer_bytes))
      by (rewrite slice_size_app; lia).
    unfold content. rewrite app_assoc, bytes_at_suffix4.
    now apply decode_encode_fixed32_le. }
  rewrite Hlen.
  replace (slice_size content - 4 - slice_size footer_bytes)
    with (slice_size body) by lia.
  rewrite sub_bytes_Some by lia.
  assert (Hfooter : bytes_at content (slice_size body)
                      (slice_size footer_bytes) = footer_bytes)
    by (unfold content; apply bytes_at_middle).
  assert (Hbody : bytes_at content 0 (slice_size body) = body)
    by (unfold content; apply bytes_at_prefix).
  rewrite Hfooter, Hparse.
  unfold needs_decompress. rewrite Husize, Z.eqb_refl. cbn [negb].
  unfold finish_page, pre_decode_page. rewrite Hpre.
  change (Status.ok Status.OK) with true. cbn [negb].
  rewrite sub_bytes_Some by lia.
  replace (slice_size content - 4 - slice_size footer_bytes)
    with (slice_size body) by lia.
  rewrite Hbody.
  destruct (use_page_cache opts); [destruct (page_cache _)|];
    eexists _, _; split; reflexivity.
Qed.

(** C1: a page stored as it is reads back.  For all body slices and every
    footer that declares the total size of the body as its uncompressed size
    and that the footer parser reads back from its serialization: when
    [write_page] returns OK and the page is then read at the pointer it
    returned, from a reader that returns the bytes of the written file, not
    served from the page cache and without pre-decoding, the read returns OK
    with a body equal to the concatenation of the slices and a footer equal
    to the one written, whether or not the checksum is verified. *)
Theorem page_round_trip `{Protobuf} (writer writer' : FileWriter)
    (body : list Slice) (footer : PageFooterPB) (result : PagePointer)
    (opts : PageReadOptions) (w : World) (fc : option BlockFileCache) :
  write_page writer body footer = (WriteOK result, writer') ->
  get_uncompressed_size footer = compute_total_size body ->
  ParseFromString (SerializeToString footer) = Some footer ->
  page_pointer opts = result ->
  read_at (file_reader opts) (file_cache w) (offset result) (size result)
    = (Status.OK, bytes_at (appended writer') (offset result) (size result),
       fc) ->
  lookup_page opts w = None ->
  pre_decode opts = false ->
  exists handle w',
    read_and_decompress_page_ opts w = (ReadOK handle (concat body) footer, w').
Proof.
  intros Hwrite Husize Hparse Hptr Hread Hmiss Hpre.
  apply write_page_ok in Hwrite as (-> & -> & Hfit).
  cbn [offset size appended] in Hread.
  unfold bytes_appended in Hread. rewrite bytes_at_suffix in Hread.
  pose proof (page_bytes_size body footer) as Hsize.
  rewrite Hsize in Hfit.
  pose proof (slice_size_nonneg (SerializeToString footer)) as Hf.
  pose proof (slice_size_nonneg (concat body)) as Hb.
  rewrite compute_total_size_concat in Hfit, Husize, Hsize.
  assert (Hfs : is_uint32 (slice_size (SerializeToString footer)))
    by (unfold is_uint32, UINT32_MAX in *; lia).
  assert (Hbytes : page_bytes body footer
                   = (concat body ++ SerializeToString footer
                      ++ encode_fixed32_le
                           (slice_size (SerializeToString footer)))
                     ++ encode_fixed32_le
                          (crc32c.Value
                             (concat body ++ SerializeToString footer
                              ++ encode_fixed32_le
                                   (slice_size (SerializeToString footer))))).
  { unfold page_bytes, page_content. now rewrite (to_uint32_small _ Hfs). }
  unfold read_and_decompress_page_.
  assert (Hmiss' : lookup_page opts (set_stats w (count_page (stats w)))
                   = None) by exact Hmiss.
  rewrite Hmiss'.
  destruct (page_from_file_stored opts (set_stats w (count_page (stats w)))
              (concat body) footer
              (encode_fixed32_le
                 (crc32c.Value
                    (concat body ++ SerializeToString footer
                     ++ encode_fixed32_le
                          (slice_size (SerializeToString footer)))))
              Status.OK fc) as (handle & w' & Hres & _).
  - rewrite Hptr. cbn [offset size file_cache set_stats].
    rewrite <- Hbytes. exact Hread.
  - reflexivity.
  - rewrite Hptr. cbn [size]. rewrite Hsize.
    rewrite !slice_size_app, encode_fixed32_le_size. lia.
  - apply encode_fixed32_le_size.
  - exact Hfs.
  - exact Hparse.
  - exact Husize.
  - intros _. apply decode_encode_fixed32_le, crc_value_is_uint32.
  - exact Hpre.
  - eauto.
Qed.

(** C1 on a page with a five-byte body, written to an empty file and read
    back with verification enabled. *)
Lemma page_round_trip_witness :
  let body := [Reference.bytes_of_string "hello"] in
  let footer := Reference.data_footer 5 in
  let written := write_page Reference.empty_writer body footer in
  let result := mkPagePointer 0 48 in
  let opts :=
    Reference.read_options
      (Reference.local_file_reader "seg.dat" (appended (snd written)))
      result true in
  exists handle w',
    read_and_decompress_page_ opts Reference.plain_world
    = (ReadOK handle (concat body) footer, w').
Proof.
  intros body footer written result opts.
  apply (page_round_trip Reference.empty_writer (snd written) body footer
           result opts Reference.plain_world None).
  - vm_compute. reflexivity.
  - reflexivity.
  - vm_compute. reflexivity.
  - reflexivity.
  - vm_compute. reflexivity.
  - reflexivity.
  - reflexivity.
Defined.

(** The round trip as the claim states it fails: a DATA_PAGE footer that
    declares an uncompressed size of 5 is written in front of an empty body;
    [write_page] accepts it, and the read takes the body for a compressed one
    and fails. *)
Lemma round_trip_declared_size_counterexample :
  let footer := Reference.data_footer 5 in
  let written := write_page Reference.empty_writer [] footer in
  fst written = WriteOK (mkPagePointer 0 43)
  /\ fst (read_and_decompress_page_
            (Reference.read_options
               (Reference.local_file_reader "seg.dat"
                  (appended (snd written)))
               (mkPagePointer 0 43) true)
            Reference.plain_world)
     = ReadError (Status.Corruption
         "Bad page: page is compressed but codec is NO_COMPRESSION, file={}").
Proof. vm_compute. split; reflexivity. Qed.

(** ** Checksum sensitivity *)

Lemma byte_testbit_high (b : byte) (n : Z) :
  8 <= n -> Z.testbit (byte_to_Z b) n = false.
Proof.
  intros Hn. rewrite <- (Z.mod_small (byte_to_Z b) (2 ^ 8))
    by (pose proof (byte_to_Z_range b); lia).
  apply Z.mod_pow2_bits_high. lia.
Qed.

Lemma decode_fixed32_le_testbit (b0 b1 b2 b3 : byte) (m : Z) :
  0 <= m ->
  Z.testbit (decode_fixed32_le [b0; b1; b2; b3]) m
  = Z.testbit (byte_to_Z b0) m
    || (Z.testbit (byte_to_Z b1) (m - 8)
        || (Z.testbit (byte_to_Z b2) (m - 16)
            || Z.testbit (byte_to_Z b3) (m - 24))).
Proof.
  intros Hm. unfold decode_fixed32_le.
  now rewrite !Z.lor_spec, !Z.shiftl_spec by lia.
Qed.

Lemma byte_of_Z_bits (x : Z) (b : byte) :
  (forall n, 0 <= n < 8 -> Z.testbit x n = Z.testbit (byte_to_Z b) n) ->
  byte_of_Z x = b.
Proof.
  intros Hbits. apply byte_to_Z_inj. rewrite byte_to_of_Z.
  change 256 with (2 ^ 8). apply Z.bits_inj'. intros n Hn.
  destruct (Z.ltb_spec n 8).
  - rewrite Z.mod_pow2_bits_low by lia. apply Hbits. lia.
  - rewrite Z.mod_pow2_bits_high by lia. symmetry.
    now apply byte_testbit_high.
Qed.

Lemma encode_decode_fixed32_le (bs : list byte) :
  length bs = 4%nat -> encode_fixed32_le (decode_fixed32_le bs) = bs.
Proof.
  destruct bs as [|b0 [|b1 [|b2 [|b3 [|? ?]]]]]; try discriminate.
  intros _. unfold encode_fixed32_le.
  repeat f_equal; apply byte_of_Z_bits; intros n Hn;
    rewrite ?Z.shiftr_spec by lia;
    rewrite decode_fixed32_le_testbit by lia.
  - rewrite (Z.testbit_neg_r _ (n - 8)), (Z.testbit_neg_r _ (n - 16)),
      (Z.testbit_neg_r _ (n - 24)) by lia.
    now rewrite !orb_false_r.
  - rewrite (byte_testbit_high b0), (Z.testbit_neg_r _ (n + 8 - 16)),
      (Z.testbit_neg_r _ (n + 8 - 24)) by lia.
    rewrite !orb_false_r. cbn [orb]. f_equal. lia.
  - rewrite (byte_testbit_high b0), (byte_testbit_high b1),
      (Z.testbit_neg_r _ (n + 16 - 24)) by lia.
    rewrite !orb_false_r. cbn [orb]. f_equal. lia.
  - rewrite (byte_testbit_high b0), (byte_testbit_high b1),
      (byte_testbit_high b2) by lia.
    cbn [orb]. f_equal. lia.
Qed.

Lemma decode_fixed32_le_inj (a b : list byte) :
  length a = 4%nat -> length b = 4%nat ->
  decode_fixed32_le a = decode_fixed32_le b -> a = b.
Proof.
  intros Ha Hb E.
  rewrite <- (encode_decode_fixed32_le a Ha), <- (encode_decode_fixed32_le b Hb).
  now rewrite E.
Qed.

Lemma insert_changes (l : list byte) (i : nat) (b b' : byte) :
  l !! i = Some b -> b <> b' -> <[i:=b']> l <> l.
Proof.
  intros Hl Hne E. apply (f_equal (fun k => k !! i)) in E.
  rewrite list_lookup_insert_eq in E by (eapply lookup_lt_Some; eauto).
  congruence.
Qed.

Lemma crc_detects_insert (l : list byte) (i : nat) (b b' : byte) :
  l !! i = Some b -> b <> b' ->
  crc32c.Value (<[i:=b']> l) <> crc32c.Value l.
Proof.
  intros Hl Hne.
  rewrite insert_take_drop by (eapply lookup_lt_Some; eauto).
  rewrite <- (take_drop_middle l i b Hl) at 3.
  apply not_eq_sym. now apply crc_detects_single_byte.
Qed.

Lemma slice_size_insert (l : list byte) (i : nat) (b : byte) :
  slice_size (<[i:=b]> l) = slice_size l.
Proof. unfold slice_size. now rewrite length_insert. Qed.

(** A single corrupted byte of a content followed by its checksum makes
    the stored checksum differ from the computed one. *)
Lemma corrupted_checksum_mismatch (content : list byte) (i : nat)
    (b b' : byte) :
  let page := content ++ encode_fixed32_le (crc32c.Value content) in
  page !! i = Some b -> b <> b' ->
  decode_fixed32_le (bytes_at (<[i:=b']> page) (slice_size content) 4)
  <> crc32c.Value (bytes_at (<[i:=b']> page) 0 (slice_size content)).
Proof.
  intros page Hi Hne. unfold page in *.
  destruct (Nat.lt_ge_cases i (length content)) as [Hlt|Hge].
  - rewrite insert_app_l by exact Hlt.
    rewrite lookup_app_l in Hi by exact Hlt.
    rewrite <- (slice_size_insert content i b').
    rewrite bytes_at_suffix4, bytes_at_prefix.
    rewrite decode_encode_fixed32_le by apply crc_value_is_uint32.
    apply not_eq_sym. now apply (crc_detects_insert content i b b').
  - rewrite insert_app_r_alt by exact Hge.
    rewrite lookup_app_r in Hi by exact Hge.
    rewrite bytes_at_prefix.
    set (crc := encode_fixed32_le (crc32c.Value content)) in *.
    assert (Htail : bytes_at (content ++ <[(i - length content)%nat:=b']> crc)
                      (slice_size content) 4
                    = <[(i - length content)%nat:=b']> crc).
    { rewrite <- (bytes_at_suffix content (<[(i - length content)%nat:=b']> crc))
        at 2.
      now rewrite slice_size_insert. }
    rewrite Htail.
    rewrite <- (decode_encode_fixed32_le (crc32c.Value content))
      by apply crc_value_is_uint32.
    fold crc. intros E. apply decode_fixed32_le_inj in E.
    + now apply (insert_changes crc _ b b') in E.
    + now rewrite length_insert.
    + reflexivity.
Qed.

(** The read of a page whose stored checksum differs from the computed one,
    with verification enabled. *)
Lemma page_from_file_checksum_mismatch `{Protobuf} (opts : PageReadOptions)
    (w : World) (data : list byte) (st : Status.t)
    (fc : option BlockFileCache) :
  let page_size := size (page_pointer opts) in
  8 <= page_size ->
  read_at (file_reader opts) (file_cache w) (offset (page_pointer opts))
          page_size = (st, data, fc) ->
  Status.ok st = true ->
  slice_size data = page_size ->
  verify_checksum opts = true ->
  decode_fixed32_le (bytes_at data (page_size - 4) 4)
  <> crc32c.Value (bytes_at data 0 (page_size - 4)) ->
  fst (page_from_file opts w)
  = ReadError (Status.Corruption
      "Bad page: checksum mismatch (actual={} vs expect={}), file={}").
Proof.
  intros page_size Hsize Hread Hst Hlen Hverify Hne.
  unfold page_from_file. fold page_size.
  destruct (Z.ltb_spec page_size 8); [lia|].
  rewrite Hread, Hst, Hlen, Z.eqb_refl, Hverify. cbn [negb andb].
  apply Z.eqb_neq in Hne. rewrite Hne. reflexivity.
Qed.

(** With verification disabled a read from the file does not look at the
    last four bytes of the page: two readers of the same file (path and
    size) whose bytes agree in front of the checksum give the same result. *)
Lemma page_from_file_ignores_checksum `{Protobuf} (opts : PageReadOptions)
    (reader' : FileReader) (w : World) (data data' : list byte)
    (st : Status.t) (fc : option BlockFileCache) :
  verify_checksum opts = false ->
  path reader' = path (file_reader opts) ->
  file_size reader' = file_size (file_reader opts) ->
  read_at (file_reader opts) (file_cache w) (offset (page_pointer opts))
          (size (page_pointer opts)) = (st, data, fc) ->
  read_at reader' (file_cache w) (offset (page_pointer opts))
          (size (page_pointer opts)) = (st, data', fc) ->
  slice_size data' = slice_size data ->
  bytes_at data' 0 (size (page_pointer opts) - 4)
  = bytes_at data 0 (size (page_pointer opts) - 4) ->
  page_from_file (with_file_reader opts reader') w = page_from_file opts w.
Proof.
  intros Hverify Hpath Hfsize Hread Hread' Hlen Hfront.
  destruct opts as [upc kim pd vc reader pp cd ei pt].
  destruct reader as [p fs ra rr]. destruct reader' as [p' fs' ra' rr'].
  cbn [verify_checksum file_reader path file_size read_at page_pointer]
    in *.
  subst vc p' fs'.
  unfold page_from_file, with_file_reader.
  cbn [verify_checksum file_reader path file_size read_at page_pointer
       size offset use_page_cache kept_in_memory pre_decode codec
       encoding_info page_type andb].
  rewrite Hread, Hread', Hlen, Hfront.
  reflexivity.
Qed.

(** C4: for every page laid out as [write_page] writes it and every
    corruption of one of its stored bytes, a read that is not served from the
    page cache fails with Corruption (checksum mismatch) when checksum
    verification is enabled.  When verification is disabled the checksum is
    not consulted: if the corrupted byte is one of the four checksum bytes,
    the read returns what the read of the intact page returns, and so, for a
    page stored as it is and read without pre-decoding, the body and the
    footer that were written. *)
Theorem checksum_sensitivity `{Protobuf} (opts : PageReadOptions) (w : World)
    (body : list Slice) (footer : PageFooterPB) (i : nat) (b b' : byte)
    (fc : option BlockFileCache) :
  page_bytes body footer !! i = Some b ->
  b <> b' ->
  size (page_pointer opts) = slice_size (page_bytes body footer) ->
  read_at (file_reader opts) (file_cache w) (offset (page_pointer opts))
          (size (page_pointer opts))
    = (Status.OK, <[i:=b']> (page_bytes body footer), fc) ->
  lookup_page opts w = None ->
  fst (read_and_decompress_page_ (with_verify_checksum opts true) w)
  = ReadError (Status.Corruption
      "Bad page: checksum mismatch (actual={} vs expect={}), file={}")
  /\ (slice_size (page_content body footer) <= Z.of_nat i ->
      forall intact : FileReader,
        path intact = path (file_reader opts) ->
        file_size intact = file_size (file_reader opts) ->
        read_at intact (file_cache w) (offset (page_pointer opts))
                (size (page_pointer opts))
          = (Status.OK, page_bytes body footer, fc) ->
        read_and_decompress_page_ (with_verify_checksum opts false) w
        = read_and_decompress_page_
            (with_verify_checksum (with_file_reader opts intact) false) w)
  /\ (slice_size (page_content body footer) <= Z.of_nat i ->
      get_uncompressed_size footer = compute_total_size body ->
      ParseFromString (SerializeToString footer) = Some footer ->
      slice_size (page_bytes body footer) <= UINT32_MAX ->
      pre_decode opts = false ->
      exists handle w',
        read_and_decompress_page_ (with_verify_checksum opts false) w
        = (ReadOK handle (concat body) footer, w')).
Proof.
  intros Hi Hne Hsize Hread Hmiss.
  pose proof (page_bytes_size body footer) as Hpage.
  pose proof (page_content_size body footer) as Hcontent.
  pose proof (slice_size_nonneg (SerializeToString footer)) as Hf.
  pose proof (slice_size_nonneg (concat body)) as Hb.
  rewrite compute_total_size_concat in Hpage, Hcontent.
  split.
  - unfold read_and_decompress_page_.
    assert (Hmiss' : lookup_page (with_verify_checksum opts true)
                       (set_stats w (count_page (stats w))) = None)
      by exact Hmiss.
    rewrite Hmiss'.
    apply (page_from_file_checksum_mismatch (with_verify_checksum opts true)
             _ (<[i:=b']> (page_bytes body footer)) Status.OK fc).
    + cbn [page_pointer with_verify_checksum]. lia.
    + exact Hread.
    + reflexivity.
    + cbn [page_pointer with_verify_checksum].
      now rewrite slice_size_insert.
    + reflexivity.
    + cbn [page_pointer with_verify_checksum]. rewrite Hsize, Hpage.
      replace (slice_size (concat body)
               + slice_size (SerializeToString footer) + 4 + 4 - 4)
        with (slice_size (page_content body footer)) by lia.
      now apply (corrupted_checksum_mismatch _ i b b').
  - split.
    { intros Hin intact Hpath Hfsize Hintact.
      assert (Hge : (length (page_content body footer) <= i)%nat)
        by (unfold slice_size in Hin; lia).
      unfold read_and_decompress_page_.
      assert (Hmiss1 : lookup_page (with_verify_checksum opts false)
                         (set_stats w (count_page (stats w))) = None)
        by exact Hmiss.
      assert (Hmiss2 : lookup_page
                         (with_verify_checksum (with_file_reader opts intact)
                            false)
                         (set_stats w (count_page (stats w))) = None).
      { rewrite <- Hmiss. unfold lookup_page, cache_key_of.
        cbn [use_page_cache with_verify_checksum with_file_reader
             file_reader page_pointer page_type page_cache set_stats].
        now rewrite Hpath, Hfsize. }
      rewrite Hmiss1, Hmiss2. symmetry.
      apply (page_from_file_ignores_checksum (with_verify_checksum opts false)
               intact _ (<[i:=b']> (page_bytes body footer))
               (page_bytes body footer) Status.OK fc).
      - reflexivity.
      - exact Hpath.
      - exact Hfsize.
      - exact Hread.
      - exact Hintact.
      - now rewrite slice_size_insert.
      - cbn [page_pointer with_verify_checksum]. rewrite Hsize, Hpage.
        unfold bytes_at. rewrite !drop_0. symmetry. apply take_insert_ge.
        unfold slice_size in *. lia. }
    intros Hin Husize Hparse Hfit Hpre.
    rewrite compute_total_size_concat in Husize.
    assert (Hfs : is_uint32 (slice_size (SerializeToString footer)))
      by (unfold is_uint32, UINT32_MAX in *; lia).
    assert (Hge : (length (page_content body footer) <= i)%nat)
      by (unfold slice_size in Hin; lia).
    unfold page_bytes in Hread. rewrite insert_app_r_alt in Hread by exact Hge.
    unfold page_content in Hread at 1.
    rewrite (to_uint32_small _ Hfs) in Hread.
    unfold read_and_decompress_page_.
    assert (Hmiss' : lookup_page (with_verify_checksum opts false)
                       (set_stats w (count_page (stats w))) = None)
      by exact Hmiss.
    rewrite Hmiss'.
    destruct (page_from_file_stored (with_verify_checksum opts false)
                (set_stats w (count_page (stats w)))
                (concat body) footer
                (<[(i - length (page_content body footer))%nat:=b']>
                   (encode_fixed32_le
                      (crc32c.Value (page_content body footer))))
                Status.OK fc) as (handle & w' & Hres & _).
    + exact Hread.
    + reflexivity.
    + cbn [page_pointer with_verify_checksum]. rewrite Hsize, Hpage.
      rewrite !slice_size_app, encode_fixed32_le_size. lia.
    + now rewrite slice_size_insert.
    + exact Hfs.
    + exact Hparse.
    + exact Husize.
    + discriminate.
    + exact Hpre.
    + eauto.
Qed.

(** C4 on the page of the five-byte body: byte 45, the second checksum
    byte, is overwritten with zero. *)
Lemma checksum_sensitivity_witness :
  let page :=
    page_bytes [Reference.bytes_of_string "hello"] (Reference.data_footer 5) in
  let opts :=
    Reference.read_options
      (Reference.local_file_reader "seg.dat" (<[45%nat:=x00]> page))
      (mkPagePointer 0 48) true in
  let intact := Reference.local_file_reader "seg.dat" page in
  fst (read_and_decompress_page_ (with_verify_checksum opts true)
         Reference.plain_world)
  = ReadError (Status.Corruption
      "Bad page: checksum mismatch (actual={} vs expect={}), file={}")
  /\ read_and_decompress_page_ (with_verify_checksum opts false)
       Reference.plain_world
     = read_and_decompress_page_
         (with_verify_checksum (with_file_reader opts intact) false)
         Reference.plain_world
  /\ exists handle w',
       read_and_decompress_page_ (with_verify_checksum opts false)
         Reference.plain_world
       = (ReadOK handle (Reference.bytes_of_string "hello")
            (Reference.data_footer 5), w').
Proof.
  intros page opts intact.
  destruct (checksum_sensitivity opts Reference.plain_world
              [Reference.bytes_of_string "hello"] (Reference.data_footer 5)
              45%nat xae x00 None) as (Hon & Hsame & Hoff).
  - vm_compute. reflexivity.
  - discriminate.
  - vm_compute. reflexivity.
  - vm_compute. reflexivity.
  - reflexivity.
  - split; [exact Hon|]. split.
    + apply Hsame.
      * vm_compute. discriminate.
      * reflexivity.
      * vm_compute. reflexivity.
      * vm_compute. reflexivity.
    + apply Hoff.
      * vm_compute. discriminate.
      * reflexivity.
      * vm_compute. reflexivity.
      * vm_compute. discriminate.
      * reflexivity.
Defined.

(** The second half of the claim as stated fails: byte 40 of the same page,
    the low byte of the footer length, is overwritten with zero; with
    checksum verification disabled the read finds an empty footer, takes the
    40 bytes in front of it for a compressed body and fails with
    Corruption.  It fails for a checksum byte too, when the intact page does
    not read back: [write_page] accepts a footer that declares five bytes in
    front of an empty body, and with byte 40 of that page, its second
    checksum byte, overwritten the read fails as the read of the intact page
    does. *)
Lemma checksum_disabled_counterexample :
  let page :=
    page_bytes [Reference.bytes_of_string "hello"] (Reference.data_footer 5) in
  let written := write_page Reference.empty_writer [] (Reference.data_footer 5) in
  (page !! 40%nat = Some x23
   /\ fst (read_and_decompress_page_
             (Reference.read_options
                (Reference.local_file_reader "seg.dat" (<[40%nat:=x00]> page))
                (mkPagePointer 0 48) false)
             Reference.plain_world)
      = ReadError (Status.Corruption
          "Bad page: page is compressed but codec is NO_COMPRESSION, file={}"))
  /\ (fst written = WriteOK (mkPagePointer 0 43)
      /\ slice_size (page_content [] (Reference.data_footer 5)) = 39
      /\ appended (snd written) !! 40%nat = Some x72
      /\ fst (read_and_decompress_page_
                (Reference.read_options
                   (Reference.local_file_reader "seg.dat"
                      (<[40%nat:=x00]> (appended (snd written))))
                   (mkPagePointer 0 43) false)
                Reference.plain_world)
         = ReadError (Status.Corruption
             "Bad page: page is compressed but codec is NO_COMPRESSION, file={}")).
Proof. vm_compute. repeat split; reflexivity. Qed.

(** ** When a read from the file reports Corruption *)

Lemma decode_fixed32_le_nonneg (bs : list byte) : 0 <= decode_fixed32_le bs.
Proof.
  destruct bs as [|b0 [|b1 [|b2 [|b3 [|? ?]]]]]; simpl; try lia.
  pose proof (byte_to_Z_range b0). pose proof (byte_to_Z_range b1).
  pose proof (byte_to_Z_range b2). pose proof (byte_to_Z_range b3).
  repeat (apply Z.lor_nonneg; split); try apply Z.shiftl_nonneg; lia.
Qed.

Lemma bytes_at_size (buf : list byte) (off len : Z) :
  0 <= off -> 0 <= len -> off + len <= slice_size buf ->
  slice_size (bytes_at buf off len) = len.
Proof.
  unfold bytes_at, slice_size. intros Hoff Hlen Hfit.
  rewrite length_take, length_drop. lia.
Qed.

Lemma is_corruption_Corruption (m : string) :
  is_corruption (ReadError (Status.Corruption m)) = true.
Proof. reflexivity. Qed.

(** The end of a read reports Corruption only if the pre-decoder does. *)
Lemma finish_page_not_corruption (opts : PageReadOptions)
    (footer : PageFooterPB) (footer_size : Z) (page_slice : list byte)
    (w : World) :
  Status.is_code ErrorCode.CORRUPTION
    (fst (pre_decode_page opts footer footer_size page_slice)) = false ->
  is_corruption (fst (finish_page opts footer footer_size page_slice w))
  = false.
Proof.
  unfold finish_page.
  destruct (pre_decode_page opts footer footer_size page_slice) as [st p].
  cbn [fst]. intros Hst.
  destruct (Status.ok st); cbn [negb fst is_corruption]; [|exact Hst].
  destruct (sub_bytes p 0 _); [|reflexivity].
  destruct (use_page_cache opts); [destruct (page_cache _)|]; reflexivity.
Qed.

(** C5: a read that is not served from the page cache, whose file reader
    returns the bytes of the page, whose footer length lies inside the page
    and whose decompressor and pre-decoder do not themselves report
    Corruption, returns a Corruption status exactly when one of the four
    conditions holds or, with verification enabled, the checksum does not
    match. *)
Theorem read_corruption_causes `{Protobuf} (opts : PageReadOptions)
    (w : World) (data : list byte) (st : Status.t)
    (fc : option BlockFileCache) :
  lookup_page opts w = None ->
  read_at (file_reader opts) (file_cache w) (offset (page_pointer opts))
          (size (page_pointer opts)) = (st, data, fc) ->
  Status.ok st = true ->
  slice_size data = size (page_pointer opts) ->
  (8 <= size (page_pointer opts) ->
   footer_size_of (page_without_checksum data) + 8
     <= size (page_pointer opts)) ->
  (forall c input capacity,
     codec opts = Some c ->
     Status.is_code ErrorCode.CORRUPTION (fst (decompress c input capacity))
     = false) ->
  (forall footer footer_size page_slice,
     Status.is_code ErrorCode.CORRUPTION
       (fst (pre_decode_page opts footer footer_size page_slice)) = false) ->
  is_corruption (fst (read_and_decompress_page_ opts w)) = true
  <-> ClaimedCorruption opts data \/ ChecksumMismatch opts data.
Proof.
  intros Hmiss Hread Hst Hlen Hrange Hdec Hpre.
  unfold read_and_decompress_page_.
  assert (Hmiss' : lookup_page opts (set_stats w (count_page (stats w)))
                   = None) by exact Hmiss.
  rewrite Hmiss'. unfold page_from_file.
  cbn [file_cache set_stats]. rewrite Hread.
  destruct (Z.ltb_spec (size (page_pointer opts)) 8) as [Hsmall|Hbig].
  { cbn [fst]. split; [intros _; left; now apply TooSmall | reflexivity]. }
  rewrite Hst, Hlen, Z.eqb_refl. cbn [negb].
  rewrite <- Hlen.
  fold (stored_checksum data) (page_without_checksum data).
  destruct (verify_checksum opts
            && negb (stored_checksum data
                     =? crc32c.Value (page_without_checksum data)))
    eqn:Hck.
  { cbn [fst]. split; [intros _; right | reflexivity].
    apply andb_true_iff in Hck as [Hv Hne]. split; [exact Hv|].
    apply negb_true_iff, Z.eqb_neq in Hne. exact Hne. }
  assert (Hnock : ~ ChecksumMismatch opts data).
  { intros [Hv Hne]. rewrite Hv in Hck. cbn [andb] in Hck.
    apply negb_false_iff, Z.eqb_eq in Hck. contradiction. }
  remember (page_without_checksum data) as page_slice eqn:Hslice.
  assert (Hps : slice_size page_slice = slice_size data - 4).
  { rewrite Hslice. unfold page_without_checksum. apply bytes_at_size; lia. }
  fold (footer_size_of page_slice).
  specialize (Hrange Hbig).
  pose proof (decode_fixed32_le_nonneg
                (bytes_at page_slice (slice_size page_slice - 4) 4)) as Hfs.
  fold (footer_size_of page_slice) in Hfs.
  rewrite sub_bytes_Some by lia.
  fold (footer_bytes_of page_slice).
  destruct (ParseFromString (footer_bytes_of page_slice)) as [footer|]
    eqn:Hparse.
  2:{ cbn [fst]. rewrite Hslice in Hparse.
      split; [intros _; left; now apply InvalidFooter | reflexivity]. }
  fold (body_size_of page_slice). unfold needs_decompress.
  destruct (Z.eqb_spec (body_size_of page_slice)
              (get_uncompressed_size footer)) as [Heq|Hneq]; cbn [negb].
  { rewrite finish_page_not_corruption by apply Hpre.
    split; [discriminate|].
    intros [[Hc|Hc|f Hf Hb _|f c d s Hf Hb _ _ _ _]|Hc];
      rewrite <- ?Hslice in *; try (lia || congruence || contradiction). }
  destruct (codec opts) as [c|] eqn:Hcodec.
  2:{ cbn [fst]. rewrite Hslice in *.
      split; [intros _; left; now apply (CodecMissing _ _ footer)
             | reflexivity]. }
  destruct (decompress c (bytes_at page_slice 0 (body_size_of page_slice))
              (get_uncompressed_size footer)) as [dst out] eqn:Hd.
  destruct (Status.ok dst) eqn:Hok; cbn [negb].
  2:{ cbn [fst is_corruption].
      specialize (Hdec c (bytes_at page_slice 0 (body_size_of page_slice))
                    (get_uncompressed_size footer) eq_refl).
      rewrite Hd in Hdec. cbn [fst] in Hdec. rewrite Hdec.
      split; [discriminate|].
      intros [[Hc|Hc|f Hf Hb Hc|f c' d s Hf Hb Hc Hd' Hs Hl]|Hc];
        rewrite <- ?Hslice in *;
        try (lia || congruence || contradiction). }
  destruct (Z.eqb_spec (slice_size out) (get_uncompressed_size footer))
    as [Hout|Hout]; cbn [negb].
  { assert (Hnone : ~ (ClaimedCorruption opts data
                       \/ ChecksumMismatch opts data)).
    { intros [[Hc|Hc|f Hf Hb Hc|f c' d s Hf Hb Hc Hd' Hs Hl]|Hc];
        rewrite <- ?Hslice in *; try (lia || congruence || contradiction). }
    destruct (to_uint32 _ <? _).
    - cbn [fst is_corruption]. split; [discriminate|contradiction].
    - rewrite finish_page_not_corruption by apply Hpre.
      split; [discriminate|contradiction]. }
  cbn [fst]. split; [intros _; left | reflexivity].
  rewrite Hslice in *.
  now apply (DecompressedSizeMismatch _ _ footer c out dst).
Qed.

(** C5 on the page of the five-byte body with its second checksum byte
    overwritten, read with verification enabled. *)
Lemma read_corruption_causes_witness :
  let data :=
    <[45%nat:=x00]>
      (page_bytes [Reference.bytes_of_string "hello"]
                  (Reference.data_footer 5)) in
  let opts :=
    Reference.read_options (Reference.local_file_reader "seg.dat" data)
      (mkPagePointer 0 48) true in
  is_corruption (fst (read_and_decompress_page_ opts Reference.plain_world))
  = true
  <-> ClaimedCorruption opts data \/ ChecksumMismatch opts data.
Proof.
  intros data opts.
  apply (read_corruption_causes opts Reference.plain_world data Status.OK
           None).
  - reflexivity.
  - vm_compute. reflexivity.
  - reflexivity.
  - reflexivity.
  - intros _. vm_compute. discriminate.
  - intros c input capacity Hcodec. discriminate Hcodec.
  - intros footer footer_size page_slice. reflexivity.
Defined.

(** The claim as stated fails: the same read returns Corruption although
    none of the four conditions holds. *)
Lemma corruption_by_checksum_counterexample :
  let data :=
    <[45%nat:=x00]>
      (page_bytes [Reference.bytes_of_string "hello"]
                  (Reference.data_footer 5)) in
  let opts :=
    Reference.read_options (Reference.local_file_reader "seg.dat" data)
      (mkPagePointer 0 48) true in
  fst (read_and_decompress_page_ opts Reference.plain_world)
  = ReadError (Status.Corruption
      "Bad page: checksum mismatch (actual={} vs expect={}), file={}")
  /\ ~ ClaimedCorruption opts data.
Proof.
  intros data opts. split; [vm_compute; reflexivity|].
  intros [Hc|Hc|footer Hf Hb Hc|footer c d s Hf Hb Hc _ _ _].
  - vm_compute in Hc. discriminate Hc.
  - vm_compute in Hc. discriminate Hc.
  - vm_compute in Hf. injection Hf as <-. apply Hb. vm_compute. reflexivity.
  - discriminate Hc.
Qed.

(** A footer whose declared size makes [uncompressed_size + footer_size + 4]
    exceed 32 bits: the page is written, and the read decompresses its two
    bytes to sixteen and reports the size mismatch. *)
Lemma wrapped_page_size_corruption :
  let footer := Reference.data_footer (2 ^ 32 - 8) in
  let written := write_page Reference.empty_writer [[x10; x61]] footer in
  fst written = WriteOK (mkPagePointer 0 45)
  /\ UINT32_MAX
     < get_uncompressed_size footer + slice_size (SerializeToString footer) + 4
  /\ fst (read_and_decompress_page_
            (mkPageReadOptions false false false true
               (Reference.local_file_reader "seg.dat"
                  (appended (snd written)))
               (mkPagePointer 0 45) (Some Reference.rle_codec) None
               DATA_PAGE)
            Reference.plain_world)
     = ReadError (Status.Corruption
         "Bad page: record uncompressed size={} vs real decompressed size={}, file={}").
Proof. vm_compute. repeat split; reflexivity. Qed.

(** ** Reads served from the page cache *)

(** C9: a read served from the page cache returns the cached page: the
    footer is parsed from the cached bytes and the body is the part in front
    of it.  The result does not depend on the size of the page pointer, on
    checksum verification, on the codec or on pre-decoding; the page cache
    and the block file cache are left as they are; and for a cached page
    that holds its footer the read fails only with Corruption, when the
    footer bytes do not parse. *)
Theorem cache_hit_read `{Protobuf} (opts : PageReadOptions) (w : World)
    (page : list byte) :
  lookup_page opts w = Some page ->
  footer_size_of page + 4 <= slice_size page ->
  fst (read_and_decompress_page_ opts w)
  = match ParseFromString (footer_bytes_of page) with
    | Some footer =>
        ReadOK (CachedPage (cache_key_of opts) page)
               (bytes_at page 0 (body_size_of page)) footer
    | None =>
        ReadError (Status.Corruption
          "Bad page: invalid footer, footer_size={}, file={}")
    end
  /\ page_cache (snd (read_and_decompress_page_ opts w)) = page_cache w
  /\ file_cache (snd (read_and_decompress_page_ opts w)) = file_cache w
  /\ forall page_size verify codec' pre_decode' encoding_info' kept_in_memory',
       read_and_decompress_page_
         (mkPageReadOptions (use_page_cache opts) kept_in_memory' pre_decode'
            verify (file_reader opts)
            (mkPagePointer (offset (page_pointer opts)) page_size)
            codec' encoding_info' (page_type opts)) w
       = read_and_decompress_page_ opts w.
Proof.
  intros Hhit Hrange.
  pose proof (decode_fixed32_le_nonneg
                (bytes_at page (slice_size page - 4) 4)) as Hfs.
  fold (footer_size_of page) in Hfs.
  assert (Hread : read_and_decompress_page_ opts w
                  = page_from_cache opts page
                      (set_stats w (count_page (stats w)))).
  { unfold read_and_decompress_page_.
    assert (Hhit' : lookup_page opts (set_stats w (count_page (stats w)))
                    = Some page) by exact Hhit.
    now rewrite Hhit'. }
  assert (Hshape : page_from_cache opts page
                     (set_stats w (count_page (stats w)))
                   = match ParseFromString (footer_bytes_of page) with
                     | Some footer =>
                         (ReadOK (CachedPage (cache_key_of opts) page)
                                 (bytes_at page 0 (body_size_of page)) footer,
                          set_stats w
                            (add_uncompressed_bytes
                               (count_cached_page (count_page (stats w)))
                               (slice_size
                                  (bytes_at page 0 (body_size_of page)))))
                     | None =>
                         (ReadError (Status.Corruption
                            "Bad page: invalid footer, footer_size={}, file={}"),
                          set_stats w
                            (count_cached_page (count_page (stats w))))
                     end).
  { unfold page_from_cache.
    rewrite sub_bytes_Some by lia. fold (footer_size_of page).
    rewrite sub_bytes_Some by lia. fold (footer_bytes_of page).
    destruct (ParseFromString (footer_bytes_of page)); reflexivity. }
  rewrite Hread, Hshape.
  repeat split.
  - destruct (ParseFromString (footer_bytes_of page)); reflexivity.
  - destruct (ParseFromString (footer_bytes_of page)); reflexivity.
  - destruct (ParseFromString (footer_bytes_of page)); reflexivity.
  - intros page_size verify codec' pre_decode' encoding_info' kept'.
    rewrite <- Hshape.
    unfold read_and_decompress_page_.
    assert (Hhit' : lookup_page
                      (mkPageReadOptions (use_page_cache opts) kept'
                         pre_decode' verify (file_reader opts)
                         (mkPagePointer (offset (page_pointer opts)) page_size)
                         codec' encoding_info' (page_type opts))
                      (set_stats w (count_page (stats w)))
                    = Some page) by exact Hhit.
    rewrite Hhit'. reflexivity.
Qed.

(** C9 on a cached page of the five-byte body, read through a page pointer
    of size 0 with verification enabled, from a file that is empty. *)
Lemma cache_hit_read_witness :
  let page :=
    page_content [Reference.bytes_of_string "hello"]
                 (Reference.data_footer 5) in
  let reader := Reference.local_file_reader "seg.dat" [] in
  let opts :=
    mkPageReadOptions true false false true reader (mkPagePointer 0 0)
      None None DATA_PAGE in
  let w :=
    mkWorld (Some (cache_insert ∅ (cache_key_of opts) page DATA_PAGE)) None
      false Reference.fresh_stats in
  fst (read_and_decompress_page_ opts w)
  = ReadOK (CachedPage (cache_key_of opts) page)
           (Reference.bytes_of_string "hello") (Reference.data_footer 5).
Proof.
  intros page reader opts w.
  destruct (cache_hit_read opts w page) as (Hres & _).
  - unfold lookup_page, cache_lookup, cache_insert. cbn [use_page_cache opts w
      page_cache page_type]. apply lookup_insert_eq.
  - vm_compute. discriminate.
  - rewrite Hres. vm_compute. reflexivity.
Defined.

(** ** The corruption-retry wrapper *)

Lemma rfind_from_no_slash (s : string) (i found : Z) :
  contains_slash s = false -> rfind_from s "/" i found = found.
Proof.
  revert i found. induction s as [|c rest IH]; intros i found; cbn;
    [reflexivity|].
  intros Hs. apply orb_false_iff in Hs as [Hc Hrest].
  rewrite Hc. now apply IH.
Qed.

Lemma basename_no_slash (s : string) :
  contains_slash s = false -> basename s = s.
Proof.
  destruct s as [|c rest]; cbn; [reflexivity|].
  intros Hs. apply orb_false_iff in Hs as [Hc Hrest].
  now rewrite Hrest, Hc.
Qed.

Lemma rfind_from_slash (s : string) (i found : Z) :
  contains_slash s = true ->
  exists k : nat,
    (k < String.length s)%nat
    /\ rfind_from s "/" i found = i + Z.of_nat k
    /\ substr_from s (S k) = basename s.
Proof.
  revert i found. induction s as [|c rest IH]; intros i found Hs;
    [discriminate|].
  cbn [rfind_from basename String.length].
  destruct (contains_slash rest) eqn:Hrest.
  - destruct (IH (i + 1) (if Ascii.eqb c "/" then i else found) eq_refl)
      as (k & Hk & Hfind & Hsub).
    exists (S k). repeat split; [lia | rewrite Hfind; lia | exact Hsub].
  - cbn [contains_slash] in Hs. rewrite Hrest, orb_false_r in Hs.
    rewrite Hs, rfind_from_no_slash by exact Hrest.
    exists O. repeat split; [lia | lia |].
    destruct rest; reflexivity.
Qed.

(** The key of the block file cache is the hash of the basename. *)
Lemma file_cache_key_from_path_basename `{FileCacheHash} (seg_path : string) :
  Z.of_nat (String.length seg_path) < 2 ^ 64 ->
  file_cache_key_from_path seg_path = hash (basename seg_path).
Proof.
  intros Hlen. unfold file_cache_key_from_path, rfind. f_equal.
  destruct (contains_slash seg_path) eqn:Hs.
  - destruct (rfind_from_slash seg_path 0 npos Hs) as (k & Hk & Hfind & Hsub).
    rewrite Hfind, Z.mod_small by lia.
    replace (Z.to_nat (0 + Z.of_nat k + 1)) with (S k) by lia.
    exact Hsub.
  - rewrite rfind_from_no_slash, basename_no_slash by exact Hs.
    replace ((npos + 1) mod 2 ^ 64) with 0 by reflexivity.
    destruct seg_path; reflexivity.
Qed.

(** C6: the wrapper makes at most three read attempts.  It returns the
    result of the first attempt, without retry and without touching the
    block file cache, when that result is not a Corruption status, when the
    process is not in cloud mode, or when the reader is not the reader of a
    tiered backing.  Otherwise it removes the entry of the block file cache
    keyed by the hash of the basename of the file (when a cache is
    registered) and reads again with the same options; if this second
    attempt is not a Corruption status either it is the result, and if it is,
    the result is that of a third attempt made with the remote reader. *)
Theorem retry_wrapper `{FileCacheHash}
    (do_read : PageReadOptions -> World -> ReadResult * World)
    (opts : PageReadOptions) (w w1 : World) (r1 : ReadResult) :
  Z.of_nat (String.length (path (file_reader opts))) < 2 ^ 64 ->
  do_read opts w = (r1, w1) ->
  let result := read_and_decompress_page_with do_read opts w in
  let reader := file_reader opts in
  let file_key := hash (basename (path reader)) in
  (length (attempts (snd result)) <= 3)%nat
  /\ (is_corruption r1 = false \/ is_cloud_mode w1 = false
      \/ remote_reader reader = None ->
      result = (r1, w1, [AttemptRead reader]))
  /\ (forall remote r2 w2,
        is_corruption r1 = true -> is_cloud_mode w1 = true ->
        remote_reader reader = Some remote ->
        do_read opts (fst (remove_if_cached w1 file_key)) = (r2, w2) ->
        file_cache (fst (remove_if_cached w1 file_key))
          = delete file_key <$> file_cache w1
        /\ (is_corruption r2 = false ->
            result
            = (r2, w2,
               [AttemptRead reader] ++ snd (remove_if_cached w1 file_key)
               ++ [AttemptRead reader]))
        /\ (is_corruption r2 = true ->
            result
            = (do_read (with_file_reader opts remote) w2,
               [AttemptRead reader] ++ snd (remove_if_cached w1 file_key)
               ++ [AttemptRead reader; AttemptRead remote]))).
Proof.
  intros Hlen H1 result reader file_key.
  assert (Hkey : file_cache_key_from_path (path reader) = file_key)
    by now apply file_cache_key_from_path_basename.
  assert (Hremoved : forall ww k,
             (length (attempts (snd (remove_if_cached ww k))) = 0)%nat).
  { intros ww k. unfold remove_if_cached.
    destruct (file_cache ww); reflexivity. }
  unfold result, read_and_decompress_page_with. rewrite H1.
  fold reader. rewrite Hkey.
  destruct (is_corruption r1) eqn:Hc1; cbn [negb orb].
  2:{ split; [cbn; lia | split; [intros _; reflexivity | intros; discriminate]]. }
  destruct (is_cloud_mode w1) eqn:Hcloud; cbn [negb].
  2:{ split; [cbn; lia | split; [intros _; reflexivity | intros; discriminate]]. }
  destruct (remote_reader reader) as [remote|] eqn:Hremote.
  2:{ split; [cbn; lia | split; [intros _; reflexivity | intros; discriminate]]. }
  destruct (remove_if_cached w1 file_key) as [w1' removed] eqn:Hrm.
  destruct (do_read opts w1') as [r2 w2] eqn:H2.
  assert (Hlen_removed : (length (attempts removed) = 0)%nat).
  { specialize (Hremoved w1 file_key). now rewrite Hrm in Hremoved. }
  assert (Hfc : file_cache w1' = delete file_key <$> file_cache w1).
  { unfold remove_if_cached in Hrm. destruct (file_cache w1) eqn:Hfc.
    - injection Hrm as <- _. reflexivity.
    - injection Hrm as <- _. now rewrite Hfc. }
  destruct (is_corruption r2) eqn:Hc2; cbn [negb].
  - destruct (do_read (with_file_reader opts remote) w2) as [r3 w3] eqn:H3.
    split; [|split].
    + cbn [snd]. unfold attempts in *. rewrite !omap_app, !length_app.
      rewrite Hlen_removed. cbn. lia.
    + intros [Hd|[Hd|Hd]]; discriminate.
    + intros remote' r2' w2' _ _ [= <-] Hr. cbn [fst snd] in *.
      rewrite H2 in Hr. injection Hr as <- <-.
      split; [exact Hfc|]. split; [congruence|].
      intros _. rewrite H3. now rewrite <- !app_assoc.
  - split; [|split].
    + cbn [snd]. unfold attempts in *. rewrite !omap_app, !length_app.
      rewrite Hlen_removed. cbn. lia.
    + intros [Hd|[Hd|Hd]]; discriminate.
    + intros remote' r2' w2' _ _ [= <-] Hr. cbn [fst snd] in *.
      rewrite H2 in Hr. injection Hr as <- <-.
      split; [exact Hfc|]. split; [|congruence].
      intros _. reflexivity.
Qed.

(** C6 on a tiered backing in cloud mode whose local copy of the file has a
    corrupted body byte. *)
Lemma retry_wrapper_witness :
  let page :=
    page_bytes [Reference.bytes_of_string "hello"] (Reference.data_footer 5) in
  let reader := Reference.cached_remote_file_reader "data/seg.dat" page in
  let opts := Reference.read_options reader (mkPagePointer 0 48) true in
  let w :=
    mkWorld None (Some {[ hash "seg.dat" := <[2%nat:=x00]> page ]}) true
      Reference.fresh_stats in
  (length (attempts (snd (read_and_decompress_page opts w))) <= 3)%nat.
Proof.
  intros page reader opts w.
  destruct (retry_wrapper do_read_and_decompress_page opts w
              (snd (do_read_and_decompress_page opts w))
              (fst (do_read_and_decompress_page opts w))) as [Hle _].
  - vm_compute. reflexivity.
  - apply surjective_pairing.
  - exact Hle.
Defined.

(** The claim as stated fails outside cloud mode: on the same tiered backing
    with the same corrupted local copy, but with [config::is_cloud_mode()]
    false, the first attempt fails with Corruption and the wrapper returns
    it after this single attempt, leaving the block file cache as it is. *)
Lemma retry_needs_cloud_mode_counterexample :
  let page :=
    page_bytes [Reference.bytes_of_string "hello"] (Reference.data_footer 5) in
  let reader := Reference.cached_remote_file_reader "data/seg.dat" page in
  let opts := Reference.read_options reader (mkPagePointer 0 48) true in
  let w :=
    mkWorld None (Some {[ hash "seg.dat" := <[2%nat:=x00]> page ]}) false
      Reference.fresh_stats in
  is_Some (remote_reader (file_reader opts))
  /\ is_corruption (fst (do_read_and_decompress_page opts w)) = true
  /\ is_corruption (fst (fst (read_and_decompress_page opts w))) = true
  /\ snd (read_and_decompress_page opts w) = [AttemptRead reader]
  /\ file_cache (snd (fst (read_and_decompress_page opts w))) = file_cache w.
Proof.
  intros page reader opts w.
  split; [eexists; reflexivity|].
  split; [vm_compute; reflexivity|].
  split; [vm_compute; reflexivity|].
  split; [vm_compute; reflexivity|].
  vm_compute. reflexivity.
Qed.

(** ** The compression threshold *)

#[global] Instance exact_rounding_laws : RoundingLaws Reference.exact_rounding.
Proof. split; cbn; intros; auto with qarith. Qed.

Section Compression.
Context `{R : Rounding} `{!RoundingLaws R}.

Lemma round_nonneg (x : Q) : (0 <= x)%Q -> (0 <= round x)%Q.
Proof.
  intros Hx. rewrite <- round_zero. now apply round_monotone.
Qed.

Lemma round_nonpos (x : Q) : (x <= 0)%Q -> (round x <= 0)%Q.
Proof.
  intros Hx. rewrite <- round_zero. now apply round_monotone.
Qed.

Lemma round_ge_one (x : Q) : (1 <= x)%Q -> (1 <= round x)%Q.
Proof.
  intros Hx. rewrite <- round_one. now apply round_monotone.
Qed.

(** A positive space saving means that the compressed size is strictly
    below the uncompressed size. *)
Lemma space_saving_positive (compressed_size uncompressed_size : Z) :
  0 <= compressed_size -> 0 <= uncompressed_size ->
  double_lt (Finite 0) (space_saving compressed_size uncompressed_size) = true ->
  compressed_size < uncompressed_size.
Proof.
  intros Hc Hu Hpos.
  destruct (Z.lt_ge_cases compressed_size uncompressed_size) as [|Hge];
    [assumption|exfalso].
  unfold space_saving, double_of_size, double_div in Hpos.
  set (rc := round (inject_Z compressed_size)) in *.
  set (ru := round (inject_Z uncompressed_size)) in *.
  assert (Hrc : (0 <= rc)%Q).
  { apply round_nonneg. change 0%Q with (inject_Z 0). now rewrite <- Zle_Qle. }
  assert (Hle : (ru <= rc)%Q).
  { apply round_monotone. now rewrite <- Zle_Qle. }
  destruct (Qeq_bool ru 0) eqn:Hzero.
  - destruct (Qeq_bool rc 0); [discriminate Hpos|].
    apply Qle_bool_iff in Hrc. rewrite Hrc in Hpos. discriminate Hpos.
  - cbn [double_sub double_lt] in Hpos.
    apply negb_true_iff in Hpos.
    assert (Hneq : ~ (ru == 0)%Q).
    { intros E. apply Qeq_bool_iff in E. congruence. }
    destruct (Qlt_le_dec 0 ru) as [Hru|Hru].
    + assert (Hq : (1 <= rc / ru)%Q).
      { apply Qle_shift_div_l; [exact Hru|]. now rewrite Qmult_1_l. }
      apply round_ge_one in Hq.
      assert (Hs : (round (1 - round (rc / ru)) <= 0)%Q).
      { apply round_nonpos. lra. }
      apply Qle_bool_iff in Hs. congruence.
    + assert (Hru0 : (0 <= ru)%Q).
      { apply round_nonneg. change 0%Q with (inject_Z 0).
        now rewrite <- Zle_Qle. }
      apply Hneq. now apply Qle_antisym.
Qed.

(** A compressed body that [compress_page_body] returns is empty or
    strictly smaller than the body. *)
Lemma compress_page_body_smaller (codec : option BlockCompressionCodec)
    (min_space_saving : double) (body : list Slice)
    (compressed_body : list byte) :
  compress_page_body codec min_space_saving body = CompressOK compressed_body ->
  compressed_body = []
  \/ slice_size compressed_body < compute_total_size body.
Proof.
  unfold compress_page_body.
  destruct codec as [c|]; [|intros [= <-]; now left].
  destruct (exceed_max_compress_len c (compute_total_size body));
    cbn [negb]; [intros [= <-]; now left|].
  destruct (compress c body (compute_total_size body)) as [st buf].
  destruct (Status.ok st); cbn [negb]; [|discriminate].
  destruct (double_lt (Finite 0)
              (space_saving (slice_size buf) (compute_total_size body)))
    eqn:Hpos; cbn [andb]; [|intros [= <-]; now left].
  destruct (double_le min_space_saving _); intros [= <-]; [|now left].
  right. apply space_saving_positive;
    [apply slice_size_nonneg
    | rewrite compute_total_size_concat; apply slice_size_nonneg
    | exact Hpos].
Qed.

(** C10: whenever [compress_page_body] returns OK, the compressed body is
    the empty slice or is strictly smaller than the uncompressed size of the
    body; and it returns OK with the empty slice when the codec is null or
    the body exceeds the codec's maximum compressible length. *)
Theorem compress_page_body_shrinks (codec : option BlockCompressionCodec)
    (min_space_saving : double) (body : list Slice) :
  (forall compressed_body,
     compress_page_body codec min_space_saving body
       = CompressOK compressed_body ->
     compressed_body = []
     \/ slice_size compressed_body < compute_total_size body)
  /\ (codec = None
      \/ (exists c, codec = Some c
                    /\ exceed_max_compress_len c (compute_total_size body)
                       = true) ->
      compress_page_body codec min_space_saving body = CompressOK []).
Proof.
  split.
  - intros compressed_body. apply compress_page_body_smaller.
  - unfold compress_page_body.
    intros [->|(c & -> & Hexceed)]; [reflexivity|].
    now rewrite Hexceed.
Qed.

Lemma compute_total_size_single (s : Slice) :
  compute_total_size [s] = slice_size s.
Proof. unfold compute_total_size. cbn. lia. Qed.

(** C7: when [compress_page_body] returns OK, the page stores the
    compressed body only if the space saving is at least the configured
    minimum; otherwise it stores the body as it is, whose size is the
    uncompressed size the footer declares; and the test of the reader takes
    the stored body for a compressed one exactly when the compressed body was
    stored. *)
Theorem compression_threshold (codec : option BlockCompressionCodec)
    (min_space_saving : double) (body : list Slice)
    (compressed_body : list byte) :
  compress_page_body codec min_space_saving body = CompressOK compressed_body ->
  let uncompressed_size := compute_total_size body in
  let stored := stored_body body compressed_body in
  (is_stored_compressed compressed_body = true ->
   stored = [compressed_body]
   /\ double_le min_space_saving
        (space_saving (slice_size compressed_body) uncompressed_size) = true)
  /\ (is_stored_compressed compressed_body = false ->
      stored = body /\ compute_total_size stored = uncompressed_size)
  /\ (forall footer,
        get_uncompressed_size footer = uncompressed_size ->
        needs_decompress (compute_total_size stored) footer
        = is_stored_compressed compressed_body).
Proof.
  intros Hok uncompressed_size stored.
  unfold stored, stored_body, is_stored_compressed.
  pose proof (compress_page_body_smaller codec min_space_saving body
                compressed_body Hok) as Hshrink.
  destruct (Z.eqb_spec (slice_size compressed_body) 0) as [Hzero|Hnonzero];
    cbn [negb].
  - split; [discriminate|]. split; [intros _; split; reflexivity|].
    intros footer Hfooter. unfold needs_decompress.
    rewrite Hfooter. fold uncompressed_size. now rewrite Z.eqb_refl.
  - split; [|split; [discriminate|]].
    + intros _. split; [reflexivity|].
      revert Hok. unfold compress_page_body.
      destruct codec as [c|];
        [|intros [= <-]; now contradiction Hnonzero].
      destruct (exceed_max_compress_len c (compute_total_size body));
        cbn [negb]; [intros [= <-]; now contradiction Hnonzero|].
      destruct (compress c body (compute_total_size body)) as [st buf].
      destruct (Status.ok st); cbn [negb]; [|discriminate].
      destruct (double_lt (Finite 0) _); cbn [andb];
        [|intros [= <-]; now contradiction Hnonzero].
      destruct (double_le min_space_saving _) eqn:Hmin; intros [= <-];
        [exact Hmin | now contradiction Hnonzero].
    + intros footer Hfooter. unfold needs_decompress.
      rewrite Hfooter, compute_total_size_single.
      apply negb_true_iff, Z.eqb_neq.
      destruct Hshrink as [->|Hlt]; [now contradiction Hnonzero|].
      fold uncompressed_size in Hlt. lia.
Qed.

End Compression.

(** The compression theorems on sixteen equal bytes and the run-length
    codec, with a minimum space saving of one tenth. *)
Lemma compress_page_body_shrinks_witness :
  let body := [Reference.bytes_of_string "aaaaaaaaaaaaaaaa"] in
  let codec := Some Reference.rle_codec in
  (forall compressed_body,
     compress_page_body codec (Finite (1 # 10)) body
       = CompressOK compressed_body ->
     compressed_body = []
     \/ slice_size compressed_body < compute_total_size body)
  /\ (codec = None
      \/ (exists c, codec = Some c
                    /\ exceed_max_compress_len c (compute_total_size body)
                       = true) ->
      compress_page_body codec (Finite (1 # 10)) body = CompressOK []).
Proof.
  intros body codec.
  exact (compress_page_body_shrinks (R := Reference.exact_rounding) codec
           (Finite (1 # 10)) body).
Defined.

Lemma compression_threshold_witness :
  let body := [Reference.bytes_of_string "aaaaaaaaaaaaaaaa"] in
  let compressed_body := [x10; x61] in
  stored_body body compressed_body = [compressed_body]
  /\ double_le (Finite (1 # 10))
       (space_saving (slice_size compressed_body) (compute_total_size body))
     = true.
Proof.
  intros body compressed_body.
  destruct (compression_threshold (R := Reference.exact_rounding)
              (Some Reference.rle_codec) (Finite (1 # 10)) body
              compressed_body) as [Hstored _].
  - vm_compute. reflexivity.
  - apply Hstored. reflexivity.
Defined.

(** ** Row-range resolution *)
Module SegmentIteratorProofs.
Import SegmentIterator.

Lemma elem_of_row_window (lower upper row : nat) :
  row ∈ row_window lower upper <-> (lower <= row < upper)%nat.
Proof.
  unfold row_window. rewrite elem_of_list_to_set, elem_of_seq. lia.
Qed.

Lemma lookup_ordinal_le_length (keys : list Z) (reached : Z -> bool) :
  (lookup_ordinal keys reached <= length keys)%nat.
Proof.
  induction keys as [|k rest IH]; cbn; [lia|].
  destruct (reached k); lia.
Qed.

(** On ascending keys, the ordinal found for a monotone test separates the
    rows that pass it from those that do not. *)
Lemma lookup_ordinal_spec (keys : list Z) (reached : Z -> bool) :
  StronglySorted Z.le keys ->
  (forall k k', reached k = true -> k <= k' -> reached k' = true) ->
  forall row k, nth_error keys row = Some k ->
    (lookup_ordinal keys reached <= row)%nat <-> reached k = true.
Proof.
  intros Hsorted Hmono. induction Hsorted as [|k0 rest Hrest IH Hall];
    intros row k Hrow.
  - destruct row; discriminate.
  - cbn [lookup_ordinal]. destruct (reached k0) eqn:Hk0.
    + split; [intros _|lia].
      destruct row as [|row]; cbn in Hrow.
      * now injection Hrow as <-.
      * apply (Hmono k0); [exact Hk0|].
        rewrite List.Forall_forall in Hall. apply Hall.
        eapply nth_error_In, Hrow.
    + destruct row as [|row]; cbn in Hrow.
      * injection Hrow as <-. split; [lia|congruence].
      * rewrite <- (IH row k Hrow). lia.
Qed.

Lemma lower_reached_mono (range : KeyRange) (k k' : Z) :
  lower_reached range k = true -> k <= k' -> lower_reached range k' = true.
Proof.
  unfold lower_reached. destruct (include_lower range); lia.
Qed.

Lemma upper_passed_mono (range : KeyRange) (k k' : Z) :
  upper_passed range k = true -> k <= k' -> upper_passed range k' = true.
Proof.
  unfold upper_passed. destruct (include_upper range); lia.
Qed.

(** The rows a key range resolves to are the rows whose key is in the
    range. *)
Lemma get_row_ranges_by_keys_spec (keys : list Z) (range : option KeyRange)
    (row : nat) :
  StronglySorted Z.le keys ->
  row ∈ get_row_ranges_by_keys keys range
  <-> exists k, nth_error keys row = Some k /\ in_key_range range k = true.
Proof.
  intros Hsorted. unfold get_row_ranges_by_keys, in_key_range.
  destruct range as [r|]; rewrite elem_of_row_window.
  - split.
    + intros [Hlo Hhi].
      assert (Hlen : (row < length keys)%nat).
      { pose proof (lookup_ordinal_le_length keys (upper_passed r)). lia. }
      destruct (nth_error keys row) as [k|] eqn:Hk;
        [|apply nth_error_None in Hk; lia].
      exists k. split; [reflexivity|]. apply andb_true_iff. split.
      * apply (lookup_ordinal_spec keys _ Hsorted (lower_reached_mono r)
                 row k Hk). exact Hlo.
      * apply negb_true_iff. destruct (upper_passed r k) eqn:Hup;
          [|reflexivity].
        apply (lookup_ordinal_spec keys _ Hsorted (upper_passed_mono r)
                 row k Hk) in Hup. lia.
    + intros (k & Hk & Hin). apply andb_true_iff in Hin as [Hlo Hup].
      apply negb_true_iff in Hup. split.
      * now apply (lookup_ordinal_spec keys _ Hsorted (lower_reached_mono r)
                     row k Hk).
      * destruct (Nat.lt_ge_cases row (lookup_ordinal keys (upper_passed r)))
          as [|Hge]; [assumption|].
        apply (lookup_ordinal_spec keys _ Hsorted (upper_passed_mono r)
                 row k Hk) in Hge. congruence.
  - split.
    + intros [_ Hlen]. destruct (nth_error keys row) as [k|] eqn:Hk;
        [eauto | apply nth_error_None in Hk; lia].
    + intros (k & Hk & _). split; [lia|].
      apply nth_error_Some. congruence.
Qed.

(** What an index pass leaves: the predicates it did not apply remain, in
    order, and the working set is narrowed by the answers of the indexes it
    applied. *)
Lemma apply_index_spec (index_of : ColumnPredicate -> option IndexResult)
    (predicates : list ColumnPredicate) (row_bitmap : gset nat) :
  snd (apply_index index_of predicates row_bitmap)
  = List.filter (fun pred => negb (index_applied (index_of pred))) predicates
  /\ forall row,
       row ∈ fst (apply_index index_of predicates row_bitmap)
       <-> row ∈ row_bitmap
           /\ forall pred rows, In pred predicates ->
                index_of pred = Some (IndexRows rows) -> row ∈ rows.
Proof.
  revert row_bitmap. induction predicates as [|pred rest IH];
    intros row_bitmap; cbn [apply_index List.filter].
  - split; [reflexivity|]. intros row. cbn [fst]. split; [|tauto].
    intros Hrow. split; [exact Hrow|]. intros ? ? [].
  - destruct (index_of pred) as [[rows|st]|] eqn:Hindex; cbn [index_applied negb].
    + destruct (IH (row_bitmap ∩ rows)) as [Hrem Hrows]. split; [exact Hrem|].
      intros row. rewrite Hrows, elem_of_intersection. split.
      * intros [[Hb Hr] Hall]. split; [exact Hb|].
        intros p s [<-|Hp] Hs; [congruence | eauto].
      * intros [Hb Hall]. split; [split; [exact Hb | apply (Hall pred)]|];
          cbn; eauto.
        intros p s Hp Hs. apply (Hall p s); cbn; auto.
    + destruct (IH row_bitmap) as [Hrem Hrows].
      destruct (apply_index index_of rest row_bitmap) as [b remaining].
      cbn [fst snd] in *. split; [now f_equal|].
      intros row. rewrite Hrows. split.
      * intros [Hb Hall]. split; [exact Hb|].
        intros p s [<-|Hp] Hs; [congruence | eauto].
      * intros [Hb Hall]. split; [exact Hb|].
        intros p s Hp Hs. apply (Hall p s); cbn; auto.
    + destruct (IH row_bitmap) as [Hrem Hrows].
      destruct (apply_index index_of rest row_bitmap) as [b remaining].
      cbn [fst snd] in *. split; [now f_equal|].
      intros row. rewrite Hrows. split.
      * intros [Hb Hall]. split; [exact Hb|].
        intros p s [<-|Hp] Hs; [congruence | eauto].
      * intros [Hb Hall]. split; [exact Hb|].
        intros p s Hp Hs. apply (Hall p s); cbn; auto.
Qed.


Lemma index_applied_true (index : option IndexResult) :
  index_applied index = true -> exists rows, index = Some (IndexRows rows).
Proof.
  destruct index as [[rows|st]|]; cbn; try discriminate. eauto.
Qed.

Lemma row_matches_spec (keys : list Z) (opts : StorageReadOptions)
    (row : nat) :
  row_matches keys opts row = true
  <-> (exists k, nth_error keys row = Some k
                 /\ in_key_range (key_range opts) k = true)
      /\ (row ∉ deleted_rows opts)
      /\ forall pred, In pred (column_predicates opts) ->
                      evaluate pred row = true.
Proof.
  unfold row_matches, passes. destruct (nth_error keys row) as [k|].
  - rewrite !andb_true_iff, bool_decide_eq_true, forallb_forall. split.
    + intros [[Hin Hdel] Hall]. eauto.
    + intros [(k' & [= <-] & Hin) [Hdel Hall]]. auto.
  - split; [discriminate|]. intros [(k & Hk & _) _]. discriminate.
Qed.

(** C2: on a segment with ascending keys whose indexes answer exactly, the
    row bitmap resolved at scan open contains every row that passes the key
    range, the delete conditions and every predicate at the row level; a
    predicate to which no index could be applied (the index is missing or
    its lookup failed) is in the remaining-predicate list; and the rows of
    the bitmap that pass the remaining predicates are exactly the rows of
    the direct row-level evaluation, whichever index lookups failed. *)
Theorem row_ranges_complete (keys : list Z) (opts : StorageReadOptions) :
  StronglySorted Z.le keys ->
  indexes_exact keys (column_predicates opts) ->
  let resolved := get_row_ranges keys opts in
  (forall row, row_matches keys opts row = true -> row ∈ fst resolved)
  /\ (forall pred,
        In pred (column_predicates opts) ->
        index_applied (bitmap_index pred) = false ->
        index_applied (inverted_index pred) = false ->
        In pred (snd resolved))
  /\ (forall row,
        row ∈ fst resolved /\ passes (snd resolved) row = true
        <-> row_matches keys opts row = true).
Proof.
  intros Hsorted Hexact resolved. unfold resolved, get_row_ranges.
  pose proof (apply_index_spec bitmap_index (column_predicates opts)
                (get_row_ranges_by_keys keys (key_range opts)))
    as [Hrem1 Hrows1].
  destruct (apply_index bitmap_index (column_predicates opts)
              (get_row_ranges_by_keys keys (key_range opts)))
    as [b1 rem1].
  pose proof (apply_index_spec inverted_index rem1 b1) as [Hrem2 Hrows2].
  destruct (apply_index inverted_index rem1 b1) as [b2 rem2].
  cbn [fst snd] in *.
  assert (Hsub1 : forall p, In p rem1 -> In p (column_predicates opts)).
  { intros p Hp. rewrite Hrem1 in Hp. now apply filter_In in Hp. }
  assert (Hcomplete : forall row,
             row_matches keys opts row = true ->
             row ∈ b2 ∖ deleted_rows opts).
  { intros row Hrow. apply row_matches_spec in Hrow
      as ((k & Hk & Hin) & Hdel & Hall).
    assert (Hlen : (row < length keys)%nat)
      by (apply nth_error_Some; congruence).
    apply elem_of_difference. split; [|exact Hdel].
    apply Hrows2. split.
    - apply Hrows1. split.
      + apply get_row_ranges_by_keys_spec; eauto.
      + intros p s Hp Hs. destruct (Hexact p Hp) as [Hb _].
        apply (Hb s Hs row Hlen). auto.
    - intros p s Hp Hs. destruct (Hexact p (Hsub1 p Hp)) as [_ Hi].
      apply (Hi s Hs row Hlen). auto. }
  split; [exact Hcomplete|]. split.
  - intros p Hp Hb Hi. rewrite Hrem2. apply filter_In. split.
    + rewrite Hrem1. apply filter_In. split; [exact Hp | now rewrite Hb].
    + now rewrite Hi.
  - intros row. split.
    + intros [Hrow Hpass]. apply elem_of_difference in Hrow as [Hrow Hdel].
      apply Hrows2 in Hrow as [Hrow Hinv].
      apply Hrows1 in Hrow as [Hrow Hbit].
      apply get_row_ranges_by_keys_spec in Hrow as (k & Hk & Hin);
        [|exact Hsorted].
      assert (Hlen : (row < length keys)%nat)
        by (apply nth_error_Some; congruence).
      apply row_matches_spec. split; [eauto|]. split; [exact Hdel|].
      intros p Hp. destruct (Hexact p Hp) as [Hb Hi].
      destruct (index_applied (bitmap_index p)) eqn:Hab.
      { apply index_applied_true in Hab as [s Hs].
        apply (Hb s Hs row Hlen). eauto. }
      assert (Hp1 : In p rem1).
      { rewrite Hrem1. apply filter_In. split; [exact Hp | now rewrite Hab]. }
      destruct (index_applied (inverted_index p)) eqn:Hai.
      { apply index_applied_true in Hai as [s Hs].
        apply (Hi s Hs row Hlen). eauto. }
      unfold passes in Hpass. rewrite forallb_forall in Hpass.
      apply Hpass. rewrite Hrem2. apply filter_In.
      split; [exact Hp1 | now rewrite Hai].
    + intros Hrow. split; [now apply Hcomplete|].
      apply row_matches_spec in Hrow as (_ & _ & Hall).
      unfold passes. apply forallb_forall. intros p Hp.
      apply Hall, Hsub1. rewrite Hrem2 in Hp. now apply filter_In in Hp.
Qed.

(** ** The end-of-file contract of [next_batch] *)










Lemma sample_keys_sorted : StronglySorted Z.le Reference.sample_keys.
Proof.
  unfold Reference.sample_keys.
  repeat (constructor; [|repeat (constructor; [lia|]); constructor]).
  constructor.
Qed.

Lemma sample_indexes_exact :
  indexes_exact Reference.sample_keys
    (column_predicates Reference.sample_scan).
Proof.
  intros pred [<-|[<-|[]]]; split; intros rows Hrows; try discriminate.
  injection Hrows as <-. intros row Hlen. cbn in Hlen.
  do 10 (destruct row as [|row];
         [cbn; split; intros Hrow;
          first [reflexivity | discriminate | set_solver]|]).
  lia.
Qed.

(** C2 on the sample scan: the predicate whose index failed is kept. *)
Lemma row_ranges_complete_witness :
  let resolved :=
    get_row_ranges Reference.sample_keys Reference.sample_scan in
  (forall row,
     row_matches Reference.sample_keys Reference.sample_scan row = true ->
     row ∈ fst resolved)
  /\ In Reference.low_rows (snd resolved).
Proof.
  intros resolved.
  destruct (row_ranges_complete Reference.sample_keys Reference.sample_scan)
    as (Hall & Hkept & _).
  - exact sample_keys_sorted.
  - exact sample_indexes_exact.
  - split; [exact Hall|]. apply Hkept; [cbn; auto | reflexivity..].
Defined.



End SegmentIteratorProofs.

(** * Further properties of page I/O *)

(** X1: [write_page] returns OK exactly when the footer is well formed, the
    writer accepts the append and the page fits the 32-bit size of a page
    pointer; a footer that is not well formed stops it at a CHECK before
    anything is appended. *)
Theorem write_page_ok_iff `{Protobuf} (writer : FileWriter)
    (body : list Slice) (footer : PageFooterPB) :
  ((exists result writer',
      write_page writer body footer = (WriteOK result, writer'))
   <-> footer_well_formed footer
       /\ broken writer = false
       /\ compute_total_size body + slice_size (SerializeToString footer)
          + 4 + 4 <= UINT32_MAX)
  /\ (~ footer_well_formed footer ->
      exists what,
        write_page writer body footer
        = (WriteFailure (CheckFailed what), writer)).
Proof.
  assert (Hcheck : footer_sanity_check footer = None
                   <-> footer_well_formed footer).
  { unfold footer_sanity_check, footer_well_formed.
    destruct footer as [t u d i c s]. cbn [type uncompressed_size
      data_page_footer index_page_footer dict_page_footer
      short_key_page_footer].
    destruct t as [[| | | |tag]|]; destruct u as [u|];
      destruct d as [d|]; destruct i as [i|]; destruct c as [c|];
      destruct s as [s|]; cbn;
      (split;
       [ intros Hc; try discriminate Hc;
         (split; [eexists; reflexivity|]);
         first [ left; split; [reflexivity | eexists; reflexivity]
               | right; left; split; [reflexivity | eexists; reflexivity]
               | right; right; left;
                 split; [reflexivity | eexists; reflexivity]
               | right; right; right;
                 split; [reflexivity | eexists; reflexivity] ]
       | intros [[x Hu] Hcases]; try discriminate Hu;
         try reflexivity;
         destruct Hcases as [[Ht [y Hy]]|[[Ht [y Hy]]|[[Ht [y Hy]]
                                                      |[Ht [y Hy]]]]];
         try discriminate Ht; try discriminate Hy; reflexivity ]). }
  split.
  - rewrite <- Hcheck, <- page_bytes_size. split.
    + intros (result & writer' & Hw).
      pose proof (write_page_ok writer body footer result writer' Hw)
        as (_ & _ & Hfit).
      unfold write_page, appendv in Hw.
      destruct (footer_sanity_check footer); [discriminate|].
      destruct (broken writer); [discriminate|]. auto.
    + intros (Hc & Hb & Hfit). unfold write_page, appendv.
      rewrite Hc, Hb. change (Status.ok Status.OK) with true. cbn [negb].
      rewrite concat_page_slices.
      replace (bytes_appended _ - bytes_appended writer)
        with (slice_size (page_bytes body footer))
        by (unfold bytes_appended; cbn [appended]; rewrite slice_size_app;
            lia).
      destruct (Z.leb_spec (slice_size (page_bytes body footer)) UINT32_MAX);
        [eauto | lia].
  - intros Hbad. unfold write_page.
    destruct (footer_sanity_check footer) as [what|] eqn:Hc; [eauto|].
    exfalso. now apply Hbad, Hcheck.
Qed.

(** The read of the bytes of a page laid out by [write_page] whose footer
    declares the size of the body. *)
Lemma read_written_page `{Protobuf} (opts : PageReadOptions) (w : World)
    (body : list Slice) (footer : PageFooterPB)
    (fc : option BlockFileCache) :
  read_at (file_reader opts) (file_cache w) (offset (page_pointer opts))
          (size (page_pointer opts))
    = (Status.OK, page_bytes body footer, fc) ->
  size (page_pointer opts) = slice_size (page_bytes body footer) ->
  slice_size (page_bytes body footer) <= UINT32_MAX ->
  get_uncompressed_size footer = compute_total_size body ->
  ParseFromString (SerializeToString footer) = Some footer ->
  lookup_page opts w = None ->
  pre_decode opts = false ->
  exists handle w',
    read_and_decompress_page_ opts w = (ReadOK handle (concat body) footer, w').
Proof.
  intros Hread Hsize Hfit Husize Hparse Hmiss Hpre.
  pose proof (page_bytes_size body footer) as Hpage.
  pose proof (slice_size_nonneg (SerializeToString footer)) as Hf.
  pose proof (slice_size_nonneg (concat body)) as Hb.
  rewrite compute_total_size_concat in Hpage, Husize.
  assert (Hfs : is_uint32 (slice_size (SerializeToString footer)))
    by (unfold is_uint32, UINT32_MAX in *; lia).
  unfold page_bytes in Hread. unfold page_content in Hread at 1.
  rewrite (to_uint32_small _ Hfs) in Hread.
  unfold read_and_decompress_page_.
  assert (Hmiss' : lookup_page opts (set_stats w (count_page (stats w)))
                   = None) by exact Hmiss.
  rewrite Hmiss'.
  destruct (page_from_file_stored opts (set_stats w (count_page (stats w)))
              (concat body) footer
              (encode_fixed32_le (crc32c.Value (page_content body footer)))
              Status.OK fc) as (handle & w' & Hres & _).
  - exact Hread.
  - reflexivity.
  - rewrite Hsize, Hpage.
    rewrite !slice_size_app, encode_fixed32_le_size. lia.
  - apply encode_fixed32_le_size.
  - exact Hfs.
  - exact Hparse.
  - exact Husize.
  - intros _. rewrite decode_encode_fixed32_le by apply crc_value_is_uint32.
    unfold page_content. now rewrite (to_uint32_small _ Hfs).
  - exact Hpre.
  - eauto.
Qed.

(** X2: pages written one after the other lie next to each other in the
    file, a later write leaves the bytes of an earlier page as they are, and
    the earlier page still reads back from the file after the later
    write. *)
Theorem consecutive_pages `{Protobuf} (w0 w1 w2 : FileWriter)
    (body1 body2 : list Slice) (footer1 footer2 : PageFooterPB)
    (p1 p2 : PagePointer) :
  write_page w0 body1 footer1 = (WriteOK p1, w1) ->
  write_page w1 body2 footer2 = (WriteOK p2, w2) ->
  offset p2 = offset p1 + size p1
  /\ bytes_at (appended w2) (offset p1) (size p1) = page_bytes body1 footer1
  /\ bytes_at (appended w2) (offset p2) (size p2) = page_bytes body2 footer2
  /\ forall opts w fc,
       page_pointer opts = p1 ->
       read_at (file_reader opts) (file_cache w) (offset p1) (size p1)
         = (Status.OK, bytes_at (appended w2) (offset p1) (size p1), fc) ->
       get_uncompressed_size footer1 = compute_total_size body1 ->
       ParseFromString (SerializeToString footer1) = Some footer1 ->
       lookup_page opts w = None ->
       pre_decode opts = false ->
       exists handle w',
         read_and_decompress_page_ opts w
         = (ReadOK handle (concat body1) footer1, w').
Proof.
  intros H1 H2.
  apply write_page_ok in H1 as (-> & -> & Hfit1).
  apply write_page_ok in H2 as (-> & -> & Hfit2).
  cbn [offset size appended]. unfold bytes_appended. cbn [appended].
  assert (E1 : bytes_at ((appended w0 ++ page_bytes body1 footer1)
                         ++ page_bytes body2 footer2)
                 (slice_size (appended w0))
                 (slice_size (page_bytes body1 footer1))
               = page_bytes body1 footer1).
  { rewrite <- app_assoc. apply bytes_at_middle. }
  split; [rewrite slice_size_app; lia|]. split; [exact E1|].
  split; [apply bytes_at_suffix|].
  intros opts w fc Hptr Hread Husize Hparse Hmiss Hpre.
  rewrite E1 in Hread.
  apply (read_written_page opts w body1 footer1 fc); try assumption.
  - rewrite Hptr. exact Hread.
  - now rewrite Hptr.
Qed.

(** X3: [write_page] sees the body only through its bytes: two lists of
    slices with the same concatenation give the same page, pointer and
    file. *)
Theorem write_page_slicing `{Protobuf} (writer : FileWriter)
    (body body' : list Slice) (footer : PageFooterPB) :
  concat body = concat body' ->
  write_page writer body footer = write_page writer body' footer.
Proof.
  intros Hsame. unfold write_page, appendv.
  destruct (footer_sanity_check footer); [reflexivity|].
  destruct (broken writer); [reflexivity|].
  rewrite !concat_page_slices.
  unfold page_bytes, page_content. now rewrite Hsame.
Qed.

(** X4: a page written with a compressed body, whose footer declares the
    uncompressed size, reads back as the bytes the codec decompresses the
    stored body to, and the page the handle holds is the decompressed body
    followed by the footer and its length. *)
Theorem compressed_page_read `{Protobuf} (writer writer' : FileWriter)
    (compressed_body : list Slice) (footer : PageFooterPB)
    (result : PagePointer) (opts : PageReadOptions) (w : World)
    (fc : option BlockFileCache) (c : BlockCompressionCodec)
    (decompressed_body : list byte) :
  write_page writer compressed_body footer = (WriteOK result, writer') ->
  compute_total_size compressed_body <> get_uncompressed_size footer ->
  codec opts = Some c ->
  decompress c (concat compressed_body) (get_uncompressed_size footer)
    = (Status.OK, decompressed_body) ->
  slice_size decompressed_body = get_uncompressed_size footer ->
  get_uncompressed_size footer + slice_size (SerializeToString footer) + 4
    <= UINT32_MAX ->
  ParseFromString (SerializeToString footer) = Some footer ->
  page_pointer opts = result ->
  read_at (file_reader opts) (file_cache w) (offset result) (size result)
    = (Status.OK, bytes_at (appended writer') (offset result) (size result),
       fc) ->
  lookup_page opts w = None ->
  pre_decode opts = false ->
  exists handle w',
    read_and_decompress_page_ opts w
    = (ReadOK handle decompressed_body footer, w')
    /\ handle_data handle
       = decompressed_body ++ SerializeToString footer
         ++ encode_fixed32_le (slice_size (SerializeToString footer)).
Proof.
  intros Hwrite Hsizes Hcodec Hdec Hout Hwrap Hparse Hptr Hread Hmiss Hpre.
  apply write_page_ok in Hwrite as (-> & -> & Hfit).
  cbn [offset size appended] in Hread.
  unfold bytes_appended in Hread. rewrite bytes_at_suffix in Hread.
  pose proof (page_bytes_size compressed_body footer) as Hpage.
  rewrite Hpage in Hfit.
  set (footer_bytes := SerializeToString footer) in *.
  set (body := concat compressed_body) in *.
  pose proof (slice_size_nonneg footer_bytes) as Hf.
  pose proof (slice_size_nonneg body) as Hb.
  pose proof (slice_size_nonneg decompressed_body) as Hd.
  rewrite compute_total_size_concat in Hfit, Hsizes, Hpage.
  fold body in Hfit, Hsizes, Hpage.
  assert (Hfs : is_uint32 (slice_size footer_bytes))
    by (unfold is_uint32, UINT32_MAX in *; lia).
  set (content := body ++ footer_bytes
                  ++ encode_fixed32_le (slice_size footer_bytes)).
  assert (Hbytes : page_bytes compressed_body footer
                   = content ++ encode_fixed32_le (crc32c.Value content)).
  { unfold page_bytes, page_content. fold footer_bytes body.
    now rewrite (to_uint32_small _ Hfs). }
  rewrite Hpage in Hread. rewrite Hbytes in Hread.
  assert (Hcontent : slice_size content
                     = slice_size body + slice_size footer_bytes + 4).
  { unfold content. rewrite !slice_size_app, encode_fixed32_le_size. lia. }
  unfold read_and_decompress_page_.
  assert (Hmiss' : lookup_page opts (set_stats w (count_page (stats w)))
                   = None) by exact Hmiss.
  rewrite Hmiss'. unfold page_from_file. rewrite Hptr.
  cbn [offset size file_cache set_stats]. unfold bytes_appended.
  rewrite Hpage.
  destruct (Z.ltb_spec (slice_size body + slice_size footer_bytes + 4 + 4) 8);
    [lia|].
  rewrite Hread. change (Status.ok Status.OK) with true.
  cbn [negb].
  replace (slice_size (content ++ encode_fixed32_le (crc32c.Value content))
           =? slice_size body + slice_size footer_bytes + 4 + 4) with true
    by (symmetry; apply Z.eqb_eq;
        rewrite slice_size_app, encode_fixed32_le_size; lia).
  cbn [negb].
  replace (slice_size body + slice_size footer_bytes + 4 + 4 - 4)
    with (slice_size content) by lia.
  rewrite bytes_at_suffix4, bytes_at_prefix.
  rewrite decode_encode_fixed32_le by apply crc_value_is_uint32.
  rewrite Z.eqb_refl, andb_false_r.
  assert (Hlen : decode_fixed32_le
                   (bytes_at content (slice_size content - 4) 4)
                 = slice_size footer_bytes).
  { replace (slice_size content - 4) with (slice_size (body ++ footer_bytes))
      by (rewrite slice_size_app; lia).
    unfold content. rewrite app_assoc, bytes_at_suffix4.
    now apply decode_encode_fixed32_le. }
  rewrite Hlen.
  replace (slice_size content - 4 - slice_size footer_bytes)
    with (slice_size body) by lia.
  rewrite sub_bytes_Some by lia.
  assert (Hfooter : bytes_at content (slice_size body)
                      (slice_size footer_bytes) = footer_bytes)
    by (unfold content; apply bytes_at_middle).
  assert (Hbody : bytes_at content 0 (slice_size body) = body)
    by (unfold content; apply bytes_at_prefix).
  assert (Htail : bytes_at content (slice_size body)
                    (slice_size footer_bytes + 4)
                  = footer_bytes
                    ++ encode_fixed32_le (slice_size footer_bytes)).
  { replace (slice_size footer_bytes + 4)
      with (slice_size (footer_bytes
                        ++ encode_fixed32_le (slice_size footer_bytes)))
      by (rewrite slice_size_app, encode_fixed32_le_size; lia).
    unfold content. apply bytes_at_suffix. }
  rewrite Hfooter, Hparse. unfold needs_decompress.
  apply Z.eqb_neq in Hsizes. rewrite Hsizes. cbn [negb].
  rewrite Hcodec.
  assert (Hnowrap : (to_uint32 (get_uncompressed_size footer
                                + slice_size footer_bytes + 4)
                     <? get_uncompressed_size footer
                        + slice_size footer_bytes + 4) = false).
  { apply Z.ltb_ge. rewrite to_uint32_small; [lia|].
    unfold is_uint32, UINT32_MAX in *. lia. }
  rewrite Hnowrap, Hbody, Hdec. change (Status.ok Status.OK) with true.
  cbn [negb]. rewrite Hout, Z.eqb_refl. cbn [negb]. rewrite Htail.
  unfold finish_page, pre_decode_page. rewrite Hpre.
  change (Status.ok Status.OK) with true. cbn [negb].
  set (page := decompressed_body ++ footer_bytes
               ++ encode_fixed32_le (slice_size footer_bytes)).
  assert (Hp : slice_size page - 4 - slice_size footer_bytes
               = slice_size decompressed_body).
  { unfold page. rewrite !slice_size_app, encode_fixed32_le_size. lia. }
  rewrite Hp, sub_bytes_Some
    by (try lia; unfold page; rewrite slice_size_app; lia).
  assert (Hpre_body : bytes_at page 0 (slice_size decompressed_body)
                      = decompressed_body)
    by (unfold page; apply bytes_at_prefix).
  rewrite Hpre_body.
  destruct (use_page_cache opts); [destruct (page_cache _)|];
    eexists _, _; split; reflexivity.
Qed.

(** ** What a read does to the statistics and to the page cache *)

Ltac split_read :=
  repeat match goal with
         | |- context [match ?x with _ => _ end] =>
             let E := fresh "E" in destruct x eqn:E
         | |- context [if ?x then _ else _] =>
             let E := fresh "E" in destruct x eqn:E
         end.

Lemma finish_page_effect (opts : PageReadOptions) (footer : PageFooterPB)
    (footer_size : Z) (page_slice : list byte) (w : World) :
  let r := finish_page opts footer footer_size page_slice w in
  total_pages_num (stats (snd r)) = total_pages_num (stats w)
  /\ cached_pages_num (stats (snd r)) = cached_pages_num (stats w)
  /\ file_cache (snd r) = file_cache w
  /\ is_cloud_mode (snd r) = is_cloud_mode w
  /\ (is_ok (fst r) = false -> page_cache (snd r) = page_cache w).
Proof.
  unfold finish_page.
  destruct (pre_decode_page opts footer footer_size page_slice) as [st p].
  split_read; cbn; repeat split; auto; discriminate.
Qed.

Lemma page_from_file_effect `{Protobuf} (opts : PageReadOptions) (w : World) :
  let r := page_from_file opts w in
  total_pages_num (stats (snd r)) = total_pages_num (stats w)
  /\ cached_pages_num (stats (snd r)) = cached_pages_num (stats w)
  /\ is_cloud_mode (snd r) = is_cloud_mode w
  /\ (is_ok (fst r) = false -> page_cache (snd r) = page_cache w).
Proof.
  unfold page_from_file.
  destruct (size (page_pointer opts) <? 8); [cbn; auto|].
  destruct (read_at _ _ _ _) as [[st data] fc].
  destruct (negb (Status.ok st)); [cbn; auto|].
  destruct (negb (slice_size data =? size (page_pointer opts)));
    [cbn; auto|].
  destruct (verify_checksum opts && _); [cbn; auto|].
  destruct (sub_bytes _ _ _) as [footer_buf|]; [|cbn; auto].
  destruct (ParseFromString footer_buf) as [footer|]; [|cbn; auto].
  match goal with
  | |- context [finish_page _ _ ?fs _ ?ww] =>
      assert (Hfin : forall p,
                 let r := finish_page opts footer fs p ww in
                 total_pages_num (stats (snd r)) = total_pages_num (stats w)
                 /\ cached_pages_num (stats (snd r))
                    = cached_pages_num (stats w)
                 /\ is_cloud_mode (snd r) = is_cloud_mode w
                 /\ (is_ok (fst r) = false ->
                     page_cache (snd r) = page_cache w))
  end.
  { intros p.
    pose proof (finish_page_effect opts footer
                  (decode_fixed32_le
                     (bytes_at
                        (bytes_at data 0 (size (page_pointer opts) - 4))
                        (slice_size
                           (bytes_at data 0 (size (page_pointer opts) - 4))
                         - 4) 4))
                  p
                  (set_stats (set_file_cache w fc)
                     (add_compressed_bytes (stats (set_file_cache w fc))
                        (size (page_pointer opts)))))
      as (H1 & H2 & _ & H4 & H5).
    cbn zeta. rewrite H1, H2, H4. cbn. auto. }
  destruct (needs_decompress _ footer); [|apply Hfin].
  destruct (codec opts) as [c|]; [|cbn; auto].
  destruct (decompress c _ _) as [dst out].
  destruct (negb (Status.ok dst)); [cbn; auto|].
  destruct (negb (slice_size out =? _)); [cbn; auto|].
  destruct (to_uint32 _ <? _); [cbn; auto|].
  apply Hfin.
Qed.

Lemma page_from_cache_effect `{Protobuf} (opts : PageReadOptions)
    (page : list byte) (w : World) :
  let r := page_from_cache opts page w in
  total_pages_num (stats (snd r)) = total_pages_num (stats w)
  /\ cached_pages_num (stats (snd r)) = cached_pages_num (stats w) + 1
  /\ is_cloud_mode (snd r) = is_cloud_mode w
  /\ page_cache (snd r) = page_cache w.
Proof.
  unfold page_from_cache. split_read; cbn; auto.
Qed.

Lemma read_stats_effect `{Protobuf} (opts : PageReadOptions) (w : World) :
  let w' := snd (read_and_decompress_page_ opts w) in
  total_pages_num (stats w') = total_pages_num (stats w) + 1
  /\ cached_pages_num (stats w')
     = cached_pages_num (stats w)
       + match lookup_page opts w with Some _ => 1 | None => 0 end
  /\ is_cloud_mode w' = is_cloud_mode w.
Proof.
  unfold read_and_decompress_page_.
  assert (Hlook : lookup_page opts (set_stats w (count_page (stats w)))
                  = lookup_page opts w) by reflexivity.
  rewrite Hlook. destruct (lookup_page opts w) as [page|].
  - pose proof (page_from_cache_effect opts page
                  (set_stats w (count_page (stats w)))) as (H1 & H2 & H3 & _).
    cbn zeta in *. rewrite H1, H2, H3. cbn. auto.
  - pose proof (page_from_file_effect opts
                  (set_stats w (count_page (stats w)))) as (H1 & H2 & H3 & _).
    cbn zeta in *. rewrite H1, H2, H3. cbn. repeat split; lia.
Qed.

(** X5: every call of [read_and_decompress_page_] counts one page in
    [total_pages_num], whatever its outcome, and counts a cached page
    exactly when it is served from the page cache. *)
Theorem read_counts_pages `{Protobuf} (opts : PageReadOptions) (w : World) :
  let w' := snd (read_and_decompress_page_ opts w) in
  total_pages_num (stats w') = total_pages_num (stats w) + 1
  /\ cached_pages_num (stats w')
     = cached_pages_num (stats w)
       + match lookup_page opts w with Some _ => 1 | None => 0 end.
Proof.
  pose proof (read_stats_effect opts w) as (H1 & H2 & _). auto.
Qed.

(** X6: a read that does not return OK leaves the page cache as it is: a
    page that fails the size check, the checksum, the footer parse or the
    decompression is never cached. *)
Theorem failed_read_keeps_page_cache `{Protobuf} (opts : PageReadOptions)
    (w : World) :
  is_ok (fst (read_and_decompress_page_ opts w)) = false ->
  page_cache (snd (read_and_decompress_page_ opts w)) = page_cache w.
Proof.
  unfold read_and_decompress_page_.
  assert (Hlook : lookup_page opts (set_stats w (count_page (stats w)))
                  = lookup_page opts w) by reflexivity.
  rewrite Hlook. destruct (lookup_page opts w) as [page|].
  - intros _.
    now pose proof (page_from_cache_effect opts page
                      (set_stats w (count_page (stats w)))) as (_ & _ & _ & H4).
  - intros Hfail.
    pose proof (page_from_file_effect opts
                  (set_stats w (count_page (stats w)))) as (_ & _ & _ & H4).
    now apply H4 in Hfail.
Qed.

(** ** The page a successful read holds *)

Lemma bytes_at_split (l : list byte) (off a b : Z) :
  0 <= off -> 0 <= a -> 0 <= b ->
  bytes_at l off (a + b) = bytes_at l off a ++ bytes_at l (off + a) b.
Proof.
  intros Hoff Ha Hb. unfold bytes_at.
  rewrite !Z2Nat.inj_add by lia.
  generalize (Z.to_nat off) (Z.to_nat a) (Z.to_nat b). clear.
  intros off a b. rewrite <- drop_drop.
  generalize (drop off l). clear. intros l.
  rewrite <- (take_drop a l) at 1.
  destruct (Nat.le_gt_cases a (length l)) as [Hle|Hgt].
  - rewrite take_app_add' by (rewrite length_take; lia). reflexivity.
  - rewrite drop_ge by lia. rewrite app_nil_r, take_nil, app_nil_r.
    rewrite !take_ge by (rewrite ?length_take; lia). reflexivity.
Qed.

Lemma bytes_at_whole (l : list byte) (len : Z) :
  slice_size l <= len -> bytes_at l 0 len = l.
Proof.
  intros Hlen. unfold bytes_at. change (Z.to_nat 0) with O.
  rewrite drop_0. apply take_ge. unfold slice_size in Hlen. lia.
Qed.

(** A page that holds its footer is its body, its footer bytes and its
    footer length. *)
Lemma page_parts (page : list byte) :
  0 <= body_size_of page ->
  page = bytes_at page 0 (body_size_of page) ++ footer_bytes_of page
         ++ bytes_at page (slice_size page - 4) 4.
Proof.
  intros Hbody. unfold footer_bytes_of, body_size_of in *.
  pose proof (decode_fixed32_le_nonneg
                (bytes_at page (slice_size page - 4) 4)) as Hfs.
  fold (footer_size_of page) in Hfs.
  set (bs := slice_size page - 4 - footer_size_of page) in *.
  rewrite <- (bytes_at_whole page (bs + (footer_size_of page + 4))) at 1
    by (unfold bs; lia).
  rewrite bytes_at_split by lia. f_equal.
  rewrite bytes_at_split by lia. f_equal. f_equal. unfold bs. lia.
Qed.

(** The shape of the result of a successful read from the file without
    pre-decoding: the page the handle holds is the body, the footer bytes
    and the footer length, and the footer is parsed from the footer
    bytes. *)
Lemma page_from_file_ok_shape `{Protobuf} (opts : PageReadOptions)
    (w w' : World) (handle : PageHandle) (body : list byte)
    (footer : PageFooterPB) :
  page_from_file opts w = (ReadOK handle body footer, w') ->
  pre_decode opts = false ->
  body = bytes_at (handle_data handle) 0 (body_size_of (handle_data handle))
  /\ 0 <= body_size_of (handle_data handle)
  /\ ParseFromString (footer_bytes_of (handle_data handle)) = Some footer
  /\ (use_page_cache opts = true ->
      forall cache, page_cache w = Some cache ->
        handle = CachedPage (cache_key_of opts) (handle_data handle)
        /\ page_cache w'
           = Some (cache_insert cache (cache_key_of opts)
                     (handle_data handle) (page_type opts))).
Proof.
  unfold page_from_file.
  destruct (Z.ltb_spec (size (page_pointer opts)) 8) as [|Hbig];
    [discriminate|].
  destruct (read_at _ _ _ _) as [[st data] fc].
  destruct (negb (Status.ok st)); [discriminate|].
  destruct (Z.eqb_spec (slice_size data) (size (page_pointer opts)))
    as [Hlen|]; cbn [negb]; [|discriminate].
  destruct (verify_checksum opts && _); [discriminate|].
  rewrite <- Hlen in *.
  set (ps := bytes_at data 0 (slice_size data - 4)).
  assert (Hps : slice_size ps = slice_size data - 4)
    by (unfold ps; apply bytes_at_size; lia).
  fold (footer_size_of ps).
  pose proof (decode_fixed32_le_nonneg (bytes_at ps (slice_size ps - 4) 4))
    as Hfs.
  fold (footer_size_of ps) in Hfs.
  unfold sub_bytes at 1.
  destruct ((0 <=? slice_size ps - 4 - footer_size_of ps)
            && (0 <=? footer_size_of ps)
            && (slice_size ps - 4 - footer_size_of ps + footer_size_of ps
                <=? slice_size ps)) eqn:Hrange; [|discriminate].
  apply andb_true_iff in Hrange as [Hrange _].
  apply andb_true_iff in Hrange as [Hrange _]. apply Z.leb_le in Hrange.
  fold (bytes_at ps (slice_size ps - 4 - footer_size_of ps)
          (footer_size_of ps)).
  fold (footer_bytes_of ps).
  destruct (ParseFromString (footer_bytes_of ps)) as [f|] eqn:Hparse;
    [|discriminate].
  intros Hres Hpre.
  assert (Hfinish : forall page,
             finish_page opts f (footer_size_of ps) page
               (set_stats (set_file_cache w fc)
                  (add_compressed_bytes (stats (set_file_cache w fc))
                     (slice_size data)))
             = (ReadOK handle body footer, w') ->
             handle_data handle = page
             /\ footer = f
             /\ body = bytes_at page 0
                         (slice_size page - 4 - footer_size_of ps)
             /\ 0 <= slice_size page - 4 - footer_size_of ps
             /\ (use_page_cache opts = true ->
                 forall cache, page_cache w = Some cache ->
                   handle = CachedPage (cache_key_of opts) page
                   /\ page_cache w'
                      = Some (cache_insert cache (cache_key_of opts) page
                                (page_type opts)))).
  { intros page. unfold finish_page, pre_decode_page. rewrite Hpre.
    change (Status.ok Status.OK) with true. cbn [negb].
    unfold sub_bytes.
    destruct ((0 <=? 0) && (0 <=? slice_size page - 4 - footer_size_of ps)
              && (0 + (slice_size page - 4 - footer_size_of ps)
                  <=? slice_size page)) eqn:Hb; [|discriminate].
    apply andb_true_iff in Hb as [Hb _].
    apply andb_true_iff in Hb as [_ Hb]. apply Z.leb_le in Hb.
    fold (bytes_at page 0 (slice_size page - 4 - footer_size_of ps)).
    cbn [page_cache set_stats set_file_cache].
    destruct (use_page_cache opts); [destruct (page_cache w) as [cache|]|];
      intros [= <- <- <- <-]; cbn [handle_data];
      (split; [reflexivity|]; split; [reflexivity|]; split; [reflexivity|];
       split; [exact Hb|]).
    - intros _ cache' [= <-]. split; reflexivity.
    - intros _ cache' Hc. discriminate Hc.
    - intros Hc. discriminate Hc. }
  assert (Htail : forall front,
             footer_size_of (front
                             ++ bytes_at ps (body_size_of ps)
                                  (footer_size_of ps + 4))
             = footer_size_of ps
             /\ footer_bytes_of (front
                                 ++ bytes_at ps (body_size_of ps)
                                      (footer_size_of ps + 4))
                = footer_bytes_of ps
             /\ slice_size (front
                            ++ bytes_at ps (body_size_of ps)
                                 (footer_size_of ps + 4))
                = slice_size front + footer_size_of ps + 4).
  { intros front.
    assert (Hsplit : bytes_at ps (body_size_of ps) (footer_size_of ps + 4)
                     = footer_bytes_of ps
                       ++ bytes_at ps (slice_size ps - 4) 4).
    { rewrite bytes_at_split by (unfold body_size_of; lia).
      unfold footer_bytes_of, body_size_of. f_equal. f_equal. lia. }
    assert (Hfb : slice_size (footer_bytes_of ps) = footer_size_of ps).
    { unfold footer_bytes_of. apply bytes_at_size; lia. }
    assert (Hl4 : slice_size (bytes_at ps (slice_size ps - 4) 4) = 4)
      by (apply bytes_at_size; lia).
    rewrite Hsplit.
    assert (Hsize : slice_size (front ++ footer_bytes_of ps
                                ++ bytes_at ps (slice_size ps - 4) 4)
                    = slice_size front + footer_size_of ps + 4)
      by (rewrite !slice_size_app; lia).
    assert (Hfsz : footer_size_of (front ++ footer_bytes_of ps
                                   ++ bytes_at ps (slice_size ps - 4) 4)
                   = footer_size_of ps).
    { unfold footer_size_of at 1. rewrite Hsize.
      replace (slice_size front + footer_size_of ps + 4 - 4)
        with (slice_size (front ++ footer_bytes_of ps))
        by (rewrite slice_size_app; lia).
      rewrite app_assoc.
      pose proof (bytes_at_suffix (front ++ footer_bytes_of ps)
                    (bytes_at ps (slice_size ps - 4) 4)) as Hm.
      rewrite Hl4 in Hm. now rewrite Hm. }
    split; [exact Hfsz|]. split; [|exact Hsize].
    unfold footer_bytes_of at 1. rewrite Hfsz, Hsize.
    replace (slice_size front + footer_size_of ps + 4 - 4 - footer_size_of ps)
      with (slice_size front) by lia.
    pose proof (bytes_at_middle front (footer_bytes_of ps)
                  (bytes_at ps (slice_size ps - 4) 4)) as Hm.
    rewrite Hfb in Hm. exact Hm. }
  unfold needs_decompress in Hres.
  destruct (negb (_ =? get_uncompressed_size f)) eqn:Hneed.
  - destruct (codec opts) as [c|]; [|discriminate].
    fold (body_size_of ps) in Hres.
    destruct (decompress c _ _) as [dst out].
    destruct (negb (Status.ok dst)); [discriminate|].
    destruct (Z.eqb_spec (slice_size out) (get_uncompressed_size f))
      as [Hout|]; cbn [negb] in Hres; [|discriminate].
    destruct (to_uint32 _ <? _); [discriminate|].
    apply Hfinish in Hres as (Hdata & -> & Hbody & Hnonneg & Hcache).
    destruct (Htail out) as (Hfsz & Hfbytes & Hsize).
    unfold body_size_of in *. rewrite Hdata, Hfsz, Hfbytes. auto.
  - apply Hfinish in Hres as (Hdata & -> & Hbody & Hnonneg & Hcache).
    unfold body_size_of in *. rewrite Hdata. auto.
Qed.

Lemma page_from_cache_ok `{Protobuf} (opts : PageReadOptions)
    (page : list byte) (footer : PageFooterPB) (w : World) :
  0 <= body_size_of page ->
  ParseFromString (footer_bytes_of page) = Some footer ->
  fst (page_from_cache opts page w)
  = ReadOK (CachedPage (cache_key_of opts) page)
           (bytes_at page 0 (body_size_of page)) footer.
Proof.
  intros Hbody Hparse. unfold body_size_of in Hbody.
  pose proof (decode_fixed32_le_nonneg
                (bytes_at page (slice_size page - 4) 4)) as Hfs.
  fold (footer_size_of page) in Hfs.
  unfold page_from_cache.
  rewrite sub_bytes_Some by lia. fold (footer_size_of page).
  rewrite sub_bytes_Some by lia. fold (footer_bytes_of page).
  now rewrite Hparse.
Qed.

Lemma page_from_cache_ok_shape `{Protobuf} (opts : PageReadOptions)
    (page : list byte) (w w' : World) (handle : PageHandle)
    (body : list byte) (footer : PageFooterPB) :
  page_from_cache opts page w = (ReadOK handle body footer, w') ->
  handle = CachedPage (cache_key_of opts) page
  /\ body = bytes_at page 0 (body_size_of page)
  /\ 0 <= body_size_of page
  /\ ParseFromString (footer_bytes_of page) = Some footer.
Proof.
  unfold page_from_cache, sub_bytes at 1.
  destruct ((0 <=? slice_size page - 4) && (0 <=? 4)
            && (slice_size page - 4 + 4 <=? slice_size page));
    [|discriminate].
  fold (bytes_at page (slice_size page - 4) 4). fold (footer_size_of page).
  unfold sub_bytes.
  destruct ((0 <=? slice_size page - 4 - footer_size_of page)
            && (0 <=? footer_size_of page)
            && (slice_size page - 4 - footer_size_of page
                + footer_size_of page <=? slice_size page)) eqn:Hrange;
    [|discriminate].
  apply andb_true_iff in Hrange as [Hrange _].
  apply andb_true_iff in Hrange as [Hrange _]. apply Z.leb_le in Hrange.
  fold (bytes_at page (slice_size page - 4 - footer_size_of page)
          (footer_size_of page)).
  fold (footer_bytes_of page).
  destruct (ParseFromString (footer_bytes_of page)) as [f|]; [|discriminate].
  intros [= <- <- <- _]. unfold body_size_of. auto.
Qed.

(** X7: after a read with the page cache has returned OK (without
    pre-decoding), the same read again returns the same body and the same
    footer, served from the page cache with a handle on the same page. *)
Theorem second_read_from_cache `{Protobuf} (opts : PageReadOptions)
    (w w' : World) (handle : PageHandle) (body : list byte)
    (footer : PageFooterPB) :
  read_and_decompress_page_ opts w = (ReadOK handle body footer, w') ->
  use_page_cache opts = true ->
  is_Some (page_cache w) ->
  pre_decode opts = false ->
  lookup_page opts w' = Some (handle_data handle)
  /\ fst (read_and_decompress_page_ opts w')
     = ReadOK (CachedPage (cache_key_of opts) (handle_data handle))
              body footer.
Proof.
  intros Hread Hupc [cache Hcache] Hpre.
  unfold read_and_decompress_page_ in Hread.
  assert (Hlook : lookup_page opts (set_stats w (count_page (stats w)))
                  = lookup_page opts w) by reflexivity.
  rewrite Hlook in Hread.
  assert (Hshape : lookup_page opts w' = Some (handle_data handle)
                   /\ body = bytes_at (handle_data handle) 0
                               (body_size_of (handle_data handle))
                   /\ 0 <= body_size_of (handle_data handle)
                   /\ ParseFromString (footer_bytes_of (handle_data handle))
                      = Some footer).
  { destruct (lookup_page opts w) as [page|] eqn:Hhit.
    - pose proof (page_from_cache_effect opts page
                    (set_stats w (count_page (stats w))))
        as (_ & _ & _ & Hpc).
      rewrite Hread in Hpc. cbn [snd page_cache set_stats] in Hpc.
      apply page_from_cache_ok_shape in Hread as (-> & Hb & Hn & Hp).
      cbn [handle_data]. split; [|auto].
      unfold lookup_page in *. now rewrite Hpc.
    - apply page_from_file_ok_shape in Hread as (Hb & Hn & Hp & Hc);
        [|exact Hpre].
      destruct (Hc Hupc cache Hcache) as [Hh Hpc].
      split; [|auto].
      unfold lookup_page, cache_lookup, cache_insert in *.
      rewrite Hupc, Hpc. apply lookup_insert_eq. }
  destruct Hshape as (Hlookup & Hb & Hn & Hp).
  split; [exact Hlookup|].
  unfold read_and_decompress_page_.
  assert (Hlook' : lookup_page opts (set_stats w' (count_page (stats w')))
                   = lookup_page opts w') by reflexivity.
  rewrite Hlook', Hlookup.
  rewrite (page_from_cache_ok opts _ footer _ Hn Hp). now rewrite <- Hb.
Qed.

(** X8: the page a successful read hands out (without pre-decoding) is the
    body it returns, followed by the bytes the returned footer was parsed
    from and by the four bytes of the footer length; the checksum is not
    part of it. *)
Theorem read_page_parts `{Protobuf} (opts : PageReadOptions) (w w' : World)
    (handle : PageHandle) (body : list byte) (footer : PageFooterPB) :
  read_and_decompress_page_ opts w = (ReadOK handle body footer, w') ->
  pre_decode opts = false ->
  let page := handle_data handle in
  page = body ++ footer_bytes_of page ++ bytes_at page (slice_size page - 4) 4
  /\ ParseFromString (footer_bytes_of page) = Some footer
  /\ footer_size_of page = slice_size (footer_bytes_of page)
  /\ slice_size page = slice_size body + footer_size_of page + 4.
Proof.
  intros Hread Hpre page.
  unfold read_and_decompress_page_ in Hread.
  assert (Hshape : body = bytes_at page 0 (body_size_of page)
                   /\ 0 <= body_size_of page
                   /\ ParseFromString (footer_bytes_of page) = Some footer).
  { destruct (lookup_page opts _) as [cached|].
    - apply page_from_cache_ok_shape in Hread as (-> & Hb & Hn & Hp). auto.
    - apply page_from_file_ok_shape in Hread as (Hb & Hn & Hp & _); auto. }
  destruct Hshape as (Hb & Hn & Hp).
  pose proof (decode_fixed32_le_nonneg
                (bytes_at page (slice_size page - 4) 4)) as Hfs.
  fold (footer_size_of page) in Hfs.
  assert (Hbs : slice_size body = body_size_of page).
  { rewrite Hb. apply bytes_at_size; unfold body_size_of in *; lia. }
  split; [rewrite Hb at 1; now apply page_parts|].
  split; [exact Hp|]. split.
  - unfold footer_bytes_of. symmetry.
    apply bytes_at_size; unfold body_size_of in *; lia.
  - unfold body_size_of in *. lia.
Qed.

(** X9: the wrapper counts its attempts: after [read_and_decompress_page]
    the counter [total_pages_num] has grown by the number of read attempts
    made, at most three. *)
Theorem retry_attempts_counted `{Protobuf} `{FileCacheHash}
    (opts : PageReadOptions) (w : World) :
  let result := read_and_decompress_page opts w in
  total_pages_num (stats (snd (fst result)))
  = total_pages_num (stats w) + Z.of_nat (length (attempts (snd result)))
  /\ (1 <= length (attempts (snd result)) <= 3)%nat.
Proof.
  unfold read_and_decompress_page, read_and_decompress_page_with,
    do_read_and_decompress_page.
  pose proof (read_stats_effect opts w) as (H1 & _ & _).
  destruct (read_and_decompress_page_ opts w) as [r1 w1]. cbn [snd] in H1.
  destruct (negb (is_corruption r1) || negb (is_cloud_mode w1));
    [cbn; split; lia|].
  destruct (remote_reader (file_reader opts)) as [remote|];
    [|cbn; split; lia].
  assert (Hrm : forall k,
             stats (fst (remove_if_cached w1 k)) = stats w1
             /\ attempts (snd (remove_if_cached w1 k)) = []).
  { intros k. unfold remove_if_cached. destruct (file_cache w1); auto. }
  specialize (Hrm (file_cache_key_from_path (path (file_reader opts)))).
  destruct (remove_if_cached w1 _) as [w1' removed].
  cbn [fst snd] in Hrm. destruct Hrm as [Hstats Hremoved].
  pose proof (read_stats_effect opts w1') as (H2 & _ & _).
  destruct (read_and_decompress_page_ opts w1') as [r2 w2]. cbn [snd] in H2.
  destruct (negb (is_corruption r2)).
  - cbn [fst snd]. unfold attempts in *.
    rewrite !omap_app, Hremoved. cbn. rewrite H2, Hstats, H1. split; lia.
  - pose proof (read_stats_effect (with_file_reader opts remote) w2)
      as (H3 & _ & _).
    destruct (read_and_decompress_page_ (with_file_reader opts remote) w2)
      as [r3 w3].
    cbn [fst snd] in *. unfold attempts in *.
    rewrite !omap_app, Hremoved. cbn. rewrite H3, H2, Hstats, H1. split; lia.
Qed.

Lemma contains_slash_app (a b : string) :
  contains_slash (a ++ b) = contains_slash a || contains_slash b.
Proof.
  induction a as [|c a IH]; [reflexivity|].
  change (String c a ++ b)%string with (String c (a ++ b)%string).
  cbn [contains_slash]. now rewrite IH, orb_assoc.
Qed.

Lemma basename_directory (dir base : string) :
  contains_slash base = false ->
  basename (dir ++ String "/" base) = base.
Proof.
  intros Hbase. induction dir as [|c dir IH].
  - change (EmptyString ++ String "/" base)%string with (String "/" base).
    cbn [basename]. now rewrite Hbase, Ascii.eqb_refl.
  - change (String c dir ++ String "/" base)%string
      with (String c (dir ++ String "/" base)%string).
    cbn [basename]. rewrite contains_slash_app.
    cbn [contains_slash]. rewrite Ascii.eqb_refl, orb_true_r. exact IH.
Qed.

(** X10: the key of the block file cache does not depend on the directory
    of a file: the key of [dir/base] is the hash of [base], and so is the
    key of the bare name [base], for which [rfind] returns [npos]. *)
Theorem file_cache_key_ignores_directory `{FileCacheHash}
    (dir base : string) :
  contains_slash base = false ->
  Z.of_nat (String.length (dir ++ String "/" base)) < 2 ^ 64 ->
  file_cache_key_from_path (dir ++ String "/" base) = hash base
  /\ file_cache_key_from_path base = hash base.
Proof.
  intros Hbase Hlen. split.
  - rewrite file_cache_key_from_path_basename by exact Hlen.
    now rewrite basename_directory.
  - unfold file_cache_key_from_path, rfind.
    rewrite rfind_from_no_slash by exact Hbase.
    replace ((npos + 1) mod 2 ^ 64) with 0 by reflexivity.
    destruct base; reflexivity.
Qed.

(** X11: with checksum verification disabled, the corruption of a byte of
    the body of a page stored as it is goes unnoticed: the read returns OK,
    with the corrupted body. *)
Theorem body_corruption_unnoticed `{Protobuf} (opts : PageReadOptions)
    (w : World) (body : list Slice) (footer : PageFooterPB) (i : nat)
    (b' : byte) (fc : option BlockFileCache) :
  (i < length (concat body))%nat ->
  verify_checksum opts = false ->
  size (page_pointer opts) = slice_size (page_bytes body footer) ->
  read_at (file_reader opts) (file_cache w) (offset (page_pointer opts))
          (size (page_pointer opts))
    = (Status.OK, <[i:=b']> (page_bytes body footer), fc) ->
  slice_size (page_bytes body footer) <= UINT32_MAX ->
  get_uncompressed_size footer = compute_total_size body ->
  ParseFromString (SerializeToString footer) = Some footer ->
  lookup_page opts w = None ->
  pre_decode opts = false ->
  exists handle w',
    read_and_decompress_page_ opts w
    = (ReadOK handle (<[i:=b']> (concat body)) footer, w').
Proof.
  intros Hi Hverify Hsize Hread Hfit Husize Hparse Hmiss Hpre.
  pose proof (page_bytes_size body footer) as Hpage.
  pose proof (slice_size_nonneg (SerializeToString footer)) as Hf.
  pose proof (slice_size_nonneg (concat body)) as Hb.
  rewrite compute_total_size_concat in Hpage, Husize.
  assert (Hfs : is_uint32 (slice_size (SerializeToString footer)))
    by (unfold is_uint32, UINT32_MAX in *; lia).
  unfold page_bytes in Hread. unfold page_content in Hread at 1.
  rewrite (to_uint32_small _ Hfs), <- !app_assoc in Hread.
  rewrite insert_app_l in Hread by exact Hi.
  unfold read_and_decompress_page_.
  assert (Hmiss' : lookup_page opts (set_stats w (count_page (stats w)))
                   = None) by exact Hmiss.
  rewrite Hmiss'.
  destruct (page_from_file_stored opts (set_stats w (count_page (stats w)))
              (<[i:=b']> (concat body)) footer
              (encode_fixed32_le (crc32c.Value (page_content body footer)))
              Status.OK fc) as (handle & w' & Hres & _).
  - rewrite <- !app_assoc. exact Hread.
  - reflexivity.
  - rewrite Hsize, Hpage.
    rewrite !slice_size_app, encode_fixed32_le_size, slice_size_insert. lia.
  - apply encode_fixed32_le_size.
  - exact Hfs.
  - exact Hparse.
  - now rewrite slice_size_insert.
  - rewrite Hverify. discriminate.
  - exact Hpre.
  - eauto.
Qed.

(** * Properties of the key comparisons and of predicate infos *)

Section RowKeyProofs.
Import RowKey.
Context {Cell : Type}.

Lemma compare_columns_spec (lhs rhs : RowCursor Cell) (count cid : nat) :
  let cmp c :=
    compare_cell (column (schema lhs) c) (cell lhs c) (cell rhs c) in
  (compare_columns lhs rhs cid count = 0
   /\ forall c, (cid <= c < cid + count)%nat -> cmp c = 0)
  \/ (exists c, (cid <= c < cid + count)%nat
                /\ compare_columns lhs rhs cid count = cmp c
                /\ cmp c <> 0
                /\ forall c', (cid <= c' < c)%nat -> cmp c' = 0).
Proof.
  intros cmp. revert cid. induction count as [|count IH]; intros cid.
  - left. split; [reflexivity|]. intros c Hc. lia.
  - cbn [compare_columns]. fold (cmp cid).
    destruct (Z.eqb_spec (cmp cid) 0) as [Hzero|Hdiff]; cbn [negb].
    + destruct (IH (S cid)) as [[Hres Hall]|(c & Hc & Hres & Hne & Hbefore)].
      * left. split; [exact Hres|]. intros c Hc.
        destruct (Nat.eq_dec c cid) as [->|]; [exact Hzero|].
        apply Hall. lia.
      * right. exists c. split; [lia|]. split; [exact Hres|].
        split; [exact Hne|]. intros c' Hc'.
        destruct (Nat.eq_dec c' cid) as [->|]; [exact Hzero|].
        apply Hbefore. lia.
    + right. exists cid. split; [lia|]. split; [reflexivity|].
      split; [exact Hdiff|]. intros c' Hc'. lia.
Qed.

(** X12: [compare_row_key] compares the columns that both rows have, in
    order: it returns 0 exactly when all of them compare equal, so that a
    key compares equal to every row it is a prefix of, and otherwise it
    returns the result of the first column that differs. *)
Theorem compare_row_key_lexicographic (lhs rhs : RowCursor Cell) :
  let cmp c :=
    compare_cell (column (schema lhs) c) (cell lhs c) (cell rhs c) in
  let cmp_cids :=
    Nat.min (num_column_ids (schema lhs)) (num_column_ids (schema rhs)) in
  (compare_row_key lhs rhs = 0
   <-> forall c, (c < cmp_cids)%nat -> cmp c = 0)
  /\ (compare_row_key lhs rhs <> 0 ->
      exists c, (c < cmp_cids)%nat
                /\ compare_row_key lhs rhs = cmp c
                /\ forall c', (c' < c)%nat -> cmp c' = 0).
Proof.
  intros cmp cmp_cids. unfold compare_row_key. fold cmp_cids.
  destruct (compare_columns_spec lhs rhs cmp_cids 0)
    as [[Hres Hall]|(c & Hc & Hres & Hne & Hbefore)].
  - split.
    + split; [intros _ c Hc; apply Hall; lia | intros _; exact Hres].
    + intros Hne. contradiction.
  - split.
    + split.
      * intros Hzero. rewrite Hres in Hzero. contradiction.
      * intros Hall. exfalso. apply Hne, Hall. lia.
    + intros _. exists c. split; [lia|]. split; [exact Hres|].
      intros c' Hc'. apply Hbefore. lia.
Qed.

End RowKeyProofs.

Section ShortKeyProofs.
Context {Column : Type} (compare_at : Column -> Z -> Z -> Column -> Z -> Z).

(** X13: [_compare_short_key_with_seek_block] returns 0 exactly when every
    listed column of the short key compares equal to the column of the seek
    block, and otherwise the result of the first listed column that differs;
    columns after that one are not compared. *)
Theorem compare_short_key_lexicographic (short_key seek_block : list Column)
    (col_ids : list nat) (res : Z) :
  compare_short_key_with_seek_block compare_at short_key seek_block col_ids
    = Some res ->
  let cmp cid :=
    match short_key !! cid, seek_block !! cid with
    | Some key_column, Some seek_column =>
        Some (compare_at key_column 0 0 seek_column (-1))
    | _, _ => None
    end in
  (res = 0 -> forall cid, In cid col_ids -> cmp cid = Some 0)
  /\ (res <> 0 ->
      exists before cid after,
        col_ids = before ++ cid :: after
        /\ cmp cid = Some res
        /\ forall cid', In cid' before -> cmp cid' = Some 0).
Proof.
  intros Hres cmp. revert Hres.
  induction col_ids as [|cid rest IH]; cbn [compare_short_key_with_seek_block].
  - intros [= <-]. split; [intros _ cid []|intros Hne; contradiction].
  - destruct (short_key !! cid) as [key_column|] eqn:Hkey; [|discriminate].
    destruct (seek_block !! cid) as [seek_column|] eqn:Hseek;
      [|discriminate].
    assert (Hcmp : cmp cid
                   = Some (compare_at key_column 0 0 seek_column (-1)))
      by (unfold cmp; now rewrite Hkey, Hseek).
    destruct (Z.eqb_spec (compare_at key_column 0 0 seek_column (-1)) 0)
      as [Hzero|Hdiff]; cbn [negb].
    + intros Hrest. destruct (IH Hrest) as [Hall Hfirst]. split.
      * intros Hr c [<-|Hc]; [now rewrite Hcmp, Hzero | now apply Hall].
      * intros Hr. destruct (Hfirst Hr) as (before & c & after & -> & Hc & Hb).
        exists (cid :: before), c, after. split; [reflexivity|].
        split; [exact Hc|].
        intros c' [<-|Hc']; [now rewrite Hcmp, Hzero | now apply Hb].
    + intros [= <-]. split; [intros Hr; contradiction|].
      intros _. exists [], cid, rest. split; [reflexivity|].
      split; [exact Hcmp|]. intros c' [].
Qed.

End ShortKeyProofs.

(** X14: [ColumnPredicateInfo::is_equal] compares the column name, the
    query values and the query operator and nothing else: it is an
    equivalence that does not look at the column id, and infos that are
    equal are empty together. *)
Theorem column_predicate_info_is_equal (a b c : ColumnPredicateInfo.t) :
  (ColumnPredicateInfo.is_equal a b = true
   <-> ColumnPredicateInfo.column_name a = ColumnPredicateInfo.column_name b
       /\ ColumnPredicateInfo.query_values a
          = ColumnPredicateInfo.query_values b
       /\ ColumnPredicateInfo.query_op a = ColumnPredicateInfo.query_op b)
  /\ ColumnPredicateInfo.is_equal a a = true
  /\ ColumnPredicateInfo.is_equal a b = ColumnPredicateInfo.is_equal b a
  /\ (ColumnPredicateInfo.is_equal a b = true ->
      ColumnPredicateInfo.is_equal b c = true ->
      ColumnPredicateInfo.is_equal a c = true)
  /\ (ColumnPredicateInfo.is_equal a b = true ->
      ColumnPredicateInfo.is_empty a = ColumnPredicateInfo.is_empty b).
Proof.
  assert (Hiff : forall x y,
             ColumnPredicateInfo.is_equal x y = true
             <-> ColumnPredicateInfo.column_name x
                 = ColumnPredicateInfo.column_name y
                 /\ ColumnPredicateInfo.query_values x
                    = ColumnPredicateInfo.query_values y
                 /\ ColumnPredicateInfo.query_op x
                    = ColumnPredicateInfo.query_op y).
  { intros x y. unfold ColumnPredicateInfo.is_equal.
    repeat case_bool_decide; cbn; split; try discriminate;
      intuition congruence. }
  split; [apply Hiff|]. split; [now apply Hiff|]. split; [|split].
  - destruct (ColumnPredicateInfo.is_equal a b) eqn:Hab;
      destruct (ColumnPredicateInfo.is_equal b a) eqn:Hba; try reflexivity.
    + apply Hiff in Hab as (H1 & H2 & H3).
      assert (ColumnPredicateInfo.is_equal b a = true)
        by (apply Hiff; auto). congruence.
    + apply Hiff in Hba as (H1 & H2 & H3).
      assert (ColumnPredicateInfo.is_equal a b = true)
        by (apply Hiff; auto). congruence.
  - intros Hab Hbc. apply Hiff in Hab as (H1 & H2 & H3).
    apply Hiff in Hbc as (H4 & H5 & H6). apply Hiff.
    repeat split; congruence.
  - intros Hab. apply Hiff in Hab as (H1 & H2 & H3).
    unfold ColumnPredicateInfo.is_empty. now rewrite H1, H2, H3.
Qed.

(** * The further properties on concrete pages

    The pages are those of the earlier examples: the body "hello" with a
    DATA_PAGE footer, written to an empty file. *)

Lemma consecutive_pages_witness :
  let body1 := [Reference.bytes_of_string "hello"] in
  let footer1 := Reference.data_footer 5 in
  let body2 := [Reference.bytes_of_string "world!"] in
  let footer2 := Reference.data_footer 6 in
  let w1 := snd (write_page Reference.empty_writer body1 footer1) in
  let w2 := snd (write_page w1 body2 footer2) in
  bytes_at (appended w2) 0 48 = page_bytes body1 footer1
  /\ bytes_at (appended w2) 48 49 = page_bytes body2 footer2
  /\ exists handle w',
       read_and_decompress_page_
         (Reference.read_options
            (Reference.local_file_reader "seg.dat" (appended w2))
            (mkPagePointer 0 48) true)
         Reference.plain_world
       = (ReadOK handle (concat body1) footer1, w').
Proof.
  intros body1 footer1 body2 footer2 w1 w2.
  destruct (consecutive_pages Reference.empty_writer w1 w2 body1 body2
              footer1 footer2 (mkPagePointer 0 48) (mkPagePointer 48 49))
    as (_ & Hfirst & Hsecond & Hread).
  - vm_compute. reflexivity.
  - vm_compute. reflexivity.
  - split; [exact Hfirst|]. split; [exact Hsecond|].
    apply (Hread _ _ None).
    + reflexivity.
    + reflexivity.
    + reflexivity.
    + vm_compute. reflexivity.
    + reflexivity.
    + reflexivity.
Defined.

Lemma write_page_slicing_witness :
  write_page Reference.empty_writer
    [Reference.bytes_of_string "he"; Reference.bytes_of_string "llo"]
    (Reference.data_footer 5)
  = write_page Reference.empty_writer [Reference.bytes_of_string "hello"]
      (Reference.data_footer 5).
Proof.
  apply (write_page_slicing Reference.empty_writer
           [Reference.bytes_of_string "he"; Reference.bytes_of_string "llo"]
           [Reference.bytes_of_string "hello"] (Reference.data_footer 5)).
  reflexivity.
Defined.

(** Sixteen equal bytes, stored as the two bytes of their run-length
    encoding. *)
Lemma compressed_page_read_witness :
  let compressed_body := [[x10; x61]] in
  let footer := Reference.data_footer 16 in
  let written := write_page Reference.empty_writer compressed_body footer in
  let opts :=
    mkPageReadOptions false false false true
      (Reference.local_file_reader "seg.dat" (appended (snd written)))
      (mkPagePointer 0 45) (Some Reference.rle_codec) None DATA_PAGE in
  exists handle w',
    read_and_decompress_page_ opts Reference.plain_world
    = (ReadOK handle (Reference.bytes_of_string "aaaaaaaaaaaaaaaa") footer, w')
    /\ handle_data handle
       = Reference.bytes_of_string "aaaaaaaaaaaaaaaa"
         ++ SerializeToString footer
         ++ encode_fixed32_le (slice_size (SerializeToString footer)).
Proof.
  intros compressed_body footer written opts.
  apply (compressed_page_read Reference.empty_writer (snd written)
           compressed_body footer (mkPagePointer 0 45) opts
           Reference.plain_world None Reference.rle_codec).
  - vm_compute. reflexivity.
  - vm_compute. discriminate.
  - reflexivity.
  - vm_compute. reflexivity.
  - vm_compute. reflexivity.
  - vm_compute. discriminate.
  - vm_compute. reflexivity.
  - reflexivity.
  - reflexivity.
  - reflexivity.
  - reflexivity.
Defined.

(** A footer that declares five bytes in front of an empty body: the read
    fails, and the page cache stays empty. *)
Lemma failed_read_keeps_page_cache_witness :
  let footer := Reference.data_footer 5 in
  let written := write_page Reference.empty_writer [] footer in
  let opts :=
    mkPageReadOptions true false false true
      (Reference.local_file_reader "seg.dat" (appended (snd written)))
      (mkPagePointer 0 43) None None DATA_PAGE in
  let w := mkWorld (Some ∅) None false Reference.fresh_stats in
  page_cache (snd (read_and_decompress_page_ opts w)) = Some ∅.
Proof.
  intros footer written opts w.
  apply (failed_read_keeps_page_cache opts w).
  vm_compute. reflexivity.
Defined.

Lemma second_read_from_cache_witness :
  let body := [Reference.bytes_of_string "hello"] in
  let footer := Reference.data_footer 5 in
  let written := write_page Reference.empty_writer body footer in
  let opts :=
    mkPageReadOptions true false false true
      (Reference.local_file_reader "seg.dat" (appended (snd written)))
      (mkPagePointer 0 48) None None DATA_PAGE in
  let w := mkWorld (Some ∅) None false Reference.fresh_stats in
  let first_read := read_and_decompress_page_ opts w in
  let page := page_content body footer in
  fst first_read
  = ReadOK (CachedPage (cache_key_of opts) page) (concat body) footer
  /\ fst (read_and_decompress_page_ opts (snd first_read))
     = ReadOK (CachedPage (cache_key_of opts) page) (concat body) footer.
Proof.
  intros body footer written opts w first_read page.
  assert (Hfirst : fst first_read
                   = ReadOK (CachedPage (cache_key_of opts) page)
                            (concat body) footer)
    by (vm_compute; reflexivity).
  split; [exact Hfirst|].
  apply (second_read_from_cache opts w (snd first_read)
           (CachedPage (cache_key_of opts) page) (concat body) footer).
  - rewrite <- Hfirst. apply surjective_pairing.
  - reflexivity.
  - eexists. reflexivity.
  - reflexivity.
Defined.

(** The page of the round trip, taken apart. *)
Lemma read_page_parts_witness :
  let body := [Reference.bytes_of_string "hello"] in
  let footer := Reference.data_footer 5 in
  let page := page_content body footer in
  page = concat body ++ footer_bytes_of page
         ++ bytes_at page (slice_size page - 4) 4
  /\ ParseFromString (footer_bytes_of page) = Some footer
  /\ footer_size_of page = slice_size (footer_bytes_of page)
  /\ slice_size page = slice_size (concat body) + footer_size_of page + 4.
Proof.
  intros body footer page.
  pose (written := write_page Reference.empty_writer body footer).
  pose (opts :=
          Reference.read_options
            (Reference.local_file_reader "seg.dat" (appended (snd written)))
            (mkPagePointer 0 48) true).
  apply (read_page_parts opts Reference.plain_world
           (snd (read_and_decompress_page_ opts Reference.plain_world))
           (OwnedPage page) (concat body) footer).
  - vm_compute. reflexivity.
  - reflexivity.
Defined.

Lemma file_cache_key_ignores_directory_witness :
  file_cache_key_from_path "/data/shard/seg_0.dat" = hash "seg_0.dat"
  /\ file_cache_key_from_path "seg_0.dat" = hash "seg_0.dat".
Proof.
  apply (file_cache_key_ignores_directory "/data/shard" "seg_0.dat").
  - reflexivity.
  - vm_compute. reflexivity.
Defined.

(** The second byte of the body "hello" is replaced in the file, and the
    read does not verify the checksum. *)
Lemma body_corruption_unnoticed_witness :
  let body := [Reference.bytes_of_string "hello"] in
  let footer := Reference.data_footer 5 in
  let opts :=
    Reference.read_options
      (Reference.local_file_reader "seg.dat"
         (<[1%nat:=x41]> (page_bytes body footer)))
      (mkPagePointer 0 48) false in
  exists handle w',
    read_and_decompress_page_ opts Reference.plain_world
    = (ReadOK handle (Reference.bytes_of_string "hAllo") footer, w').
Proof.
  intros body footer opts.
  apply (body_corruption_unnoticed opts Reference.plain_world body footer
           1%nat x41 None).
  - vm_compute. lia.
  - reflexivity.
  - vm_compute. reflexivity.
  - vm_compute. reflexivity.
  - vm_compute. discriminate.
  - reflexivity.
  - vm_compute. reflexivity.
  - reflexivity.
  - reflexivity.
Defined.

(** Short keys that differ in the second of three columns. *)
Lemma compare_short_key_lexicographic_witness :
  let compare_at := fun (a : Z) (_ _ : Z) (b : Z) (_ : Z) => a - b in
  let short_key := [1; 2; 3] in
  let seek_block := [1; 5; 4] in
  compare_short_key_with_seek_block compare_at short_key seek_block
    [0; 1; 2]%nat = Some (-3)
  /\ exists before cid after,
       [0; 1; 2]%nat = before ++ cid :: after
       /\ match short_key !! cid, seek_block !! cid with
          | Some key_column, Some seek_column =>
              Some (compare_at key_column 0 0 seek_column (-1))
          | _, _ => None
          end = Some (-3)
       /\ forall cid', In cid' before ->
            match short_key !! cid', seek_block !! cid' with
            | Some key_column, Some seek_column =>
                Some (compare_at key_column 0 0 seek_column (-1))
            | _, _ => None
            end = Some 0.
Proof.
  intros compare_at short_key seek_block.
  split; [reflexivity|].
  apply (compare_short_key_lexicographic compare_at short_key seek_block
           [0; 1; 2]%nat (-3)).
  - reflexivity.
  - discriminate.
Defined.
